(** * Adaptive request router: path selector, race coordinator, hedge
      orchestrator

    A shallow embedding of the three Lambda programs that the CDK constructs
    of this repository deploy as inline code:

    - [Gate]          : the router of [quantum-gate.ts] (weighted random and
                        Thompson-sampling path selection, in-memory path
                        statistics);
    - [Superposition] : the coordinator of the superposition engine
                        (the measurement that collapses the parallel results);
    - [Hedge]         : the orchestrator of [hedged-request.ts] (strategy
                        decision, immediate / delayed / speculative hedging,
                        metrics).

    JavaScript numbers are modelled by exact integers ([Z]) where the code
    only handles integers (millisecond clocks, counters) and by rationals
    ([Q]) elsewhere; a double is a rational.  The weighted selection and
    the mean latency of the router and the efficiency that the coordinator
    prints round every result to the nearest double ([Float64.round]), as
    the machine does; the windowed statistics of the orchestrator, which
    are quotients of integers compared with integers, and the scores of
    Thompson sampling, whose powers are taken as given, are exact
    quotients.  Asynchronous code is modelled on a virtual millisecond
    clock: every invocation comes with the delay after which it
    settles. *)

From Stdlib Require Import ZArith QArith Qround Qabs Lia Lqa List Sorted
  Permutation DecimalString Floats.
From stdpp Require Import gmap strings list fin_maps sorting.
Close Scope Q_scope.
Local Open Scope Z_scope.

(* ===================================================================== *)
(** * JavaScript numbers used by the router *)
(* ===================================================================== *)

Module JS.

(** [a > b] on finite numbers. *)
Definition Qgtb (a b : Q) : bool := negb (Qle_bool a b).

(** A number as the selector sees it: a finite value, an infinity
    (the initial [bestSample], or a division by zero) or NaN ([0/0]). *)
Inductive num : Type :=
| Num (q : Q)
| PInf
| NInf
| NaN.

(** [a / b].  Zero is the positive zero: the router only divides
    non-negative quantities. *)
Definition div (a b : num) : num :=
  match a, b with
  | NaN, _ | _, NaN => NaN
  | Num n, Num d =>
      if Qeq_bool d 0 then
        if Qeq_bool n 0 then NaN
        else if Qgtb n 0 then PInf else NInf
      else Num (n / d)
  | Num _, (PInf | NInf) => Num 0
  | (PInf | NInf), (PInf | NInf) => NaN
  | PInf, Num d => if Qgtb 0 d then NInf else PInf
  | NInf, Num d => if Qgtb 0 d then PInf else NInf
  end.

(** [a > b]: false as soon as one side is NaN. *)
Definition gt (a b : num) : bool :=
  match a, b with
  | NaN, _ | _, NaN => false
  | PInf, PInf => false
  | PInf, _ => true
  | _, PInf => false
  | NInf, _ => false
  | Num _, NInf => true
  | Num x, Num y => Qgtb x y
  end.

(** [a >= b]. *)
Definition ge (a b : num) : bool :=
  match a, b with
  | NaN, _ | _, NaN => false
  | PInf, _ => true
  | _, NInf => true
  | NInf, _ => false
  | Num _, PInf => false
  | Num x, Num y => Qle_bool y x
  end.

End JS.

(* ===================================================================== *)
(** * Binary64 arithmetic *)
(* ===================================================================== *)

Module Float64.

(** The integer nearest to [n / d], for [0 <= n] and [0 < d]; a tie goes
    to the even one. *)
Definition halfEven (n d : Z) : Z :=
  let q := n / d in
  let r := n mod d in
  match 2 * r ?= d with
  | Lt => q
  | Gt => q + 1
  | Eq => if Z.even q then q else q + 1
  end.

(** The binary exponent of [a / d], for [0 < a] and [0 < d]: the [e] with
    [2^e <= a / d < 2^(e+1)]. *)
Definition exponent (a d : Z) : Z :=
  let e0 := Z.log2 a - Z.log2 d in
  if (if 0 <=? e0 then d * 2 ^ e0 <=? a else d <=? a * 2 ^ (- e0))
  then e0 else e0 - 1.

(** The double that an arithmetic operation returns for the exact result
    [q]: the nearest multiple of [2^(e-52)], ties to even, where [e] is
    the binary exponent of [q] and at least [-1022] (subnormal numbers).
    Results beyond the largest double (which become infinite) are not
    modelled. *)
Definition round (q : Q) : Q :=
  let n := Qnum q in
  let d := Z.pos (Qden q) in
  if n =? 0 then 0%Q
  else
    let a := Z.abs n in
    let s := Z.max (exponent a d - 52) (-1074) in
    let m := if 0 <=? s then halfEven a (d * 2 ^ s)
             else halfEven (a * 2 ^ (- s)) d in
    let v := if 0 <=? s then inject_Z (m * 2 ^ s)
             else (m # Z.to_pos (2 ^ (- s)))%Q in
    if n <? 0 then (- v)%Q else v.

(** The rational that a finite double of the machine denotes. *)
Definition ofFloat (f : float) : option Q :=
  match Prim2SF f with
  | S754_zero _ => Some 0%Q
  | S754_finite s m e =>
      let v := if 0 <=? e then inject_Z (Z.pos m * 2 ^ e)
               else (Z.pos m # Z.to_pos (2 ^ (- e)))%Q in
      Some (if s then (- v)%Q else v)
  | _ => None
  end.

(** [round] gives, for the four operations on the doubles [a] and [b],
    the doubles that the machine computes. *)
Definition agrees (a b : float) : bool :=
  match ofFloat a, ofFloat b with
  | Some x, Some y =>
      let same (q : Q) (f : float) :=
        match ofFloat f with
        | Some r => Qeq_bool (round q) r
        | None => false
        end in
      same (x + y)%Q (a + b)%float && same (x - y)%Q (a - b)%float
      && same (x * y)%Q (a * b)%float && same (x / y)%Q (a / b)%float
  | _, _ => false
  end.

(** The decimal digits of a non-negative integer. *)
Definition digits (n : Z) : string :=
  NilZero.string_of_uint (N.to_uint (Z.to_N n)).

(** [x.toFixed(2)] for a double of magnitude below [1e21]: the sign, then
    the integer [n] for which [n / 100] is nearest to the magnitude (the
    larger one on a tie), written with at least one digit before the
    point and two after it. *)
Definition toFixed2 (x : Q) : string :=
  let n := Qfloor (Qabs x * 100 + (1 # 2))%Q in
  let ds := digits n in
  let ds := if (String.length ds <? 3)%nat
            then String.append
                   (if (String.length ds <? 2)%nat then "00" else "0") ds
            else ds in
  let k := (String.length ds - 2)%nat in
  let text :=
    String.append (String.substring 0 k ds)
      (String.append "." (String.substring k 2 ds)) in
  if Qle_bool 0 x then text else String.append "-" text.

End Float64.

(* ===================================================================== *)
(** * The router of the quantum gate ([quantum-gate.ts]) *)
(* ===================================================================== *)

Module Gate.

(** An entry of [EXECUTION_PATHS]; [weight] is the number that the
    configuration writes, which the router reads as a double. *)
Record path : Type := {
  name : string;
  weight : Q;
  functionName : string
}.

(** An entry of the in-memory table [pathStats]. *)
Record stats : Type := {
  successCount : Z;
  totalCount : Z;
  avgLatency : Q;
  totalLatency : Z
}.

(** The environment of the router: [EXECUTION_PATHS],
    [ENABLE_ADAPTIVE_ROUTING], [MIN_SAMPLE_SIZE]. *)
Record config : Type := {
  executionPaths : list path;
  enableAdaptiveRouting : bool;
  minSampleSize : Z
}.

(** [Math.random()]: a stream of draws and the position of the next one. *)
Record rng : Type := {
  draws : nat -> Q;
  cursor : nat
}.

Definition Math_random (g : rng) : Q * rng :=
  (draws g (cursor g), {| draws := draws g; cursor := S (cursor g) |}).

(** The generator after [n] more draws. *)
Definition skip (n : nat) (g : rng) : rng :=
  {| draws := draws g; cursor := (n + cursor g)%nat |}.

(** ** The table [pathStats] *)

(** [pathStats] is a plain object: the table holds its own properties, and
    a property read also finds the members that every object inherits
    from [Object.prototype].  These are all functions or objects, hence
    truthy. *)
Definition objectPrototypeMembers : list string :=
  ["constructor"; "__defineGetter__"; "__defineSetter__"; "hasOwnProperty";
   "__lookupGetter__"; "__lookupSetter__"; "isPrototypeOf";
   "propertyIsEnumerable"; "toString"; "valueOf"; "__proto__";
   "toLocaleString"]%string.

Definition inherited (name : string) : bool :=
  existsb (String.eqb name) objectPrototypeMembers.

(** What [pathStats[name]] evaluates to: an entry of the table, an
    inherited member (none of which has counters of its own: reading one
    gives [undefined], or the NaN that an earlier update has left there),
    or [undefined]. *)
Inductive property : Type :=
| Entry (s : stats)
| InheritedMember
| Undefined.

Definition getProperty (pathStats : gmap string stats) (name : string)
  : property :=
  match pathStats !! name with
  | Some s => Entry s
  | None => if inherited name then InheritedMember else Undefined
  end.

(** The literal used for a path without an entry in [pathStats]
    (it has no [totalLatency] field, which the sampler never reads). *)
Definition defaultStats : stats :=
  {| successCount := 1; totalCount := 2; avgLatency := 1000; totalLatency := 0 |}.

(** [pathStats[path.name] || { ... }]; [None] is an inherited member,
    whose counters are not numbers. *)
Definition statsOf (pathStats : gmap string stats) (p : path)
  : option stats :=
  match getProperty pathStats (name p) with
  | Entry s => Some s
  | InheritedMember => None
  | Undefined => Some defaultStats
  end.

Definition alphaOf (s : stats) : Z := successCount s + 1.
Definition betaOf (s : stats) : Z := totalCount s - successCount s + 1.

Section Arithmetic.

(** The rounding of an exact number to the nearest double, which gives
    the double that [JSON.parse] reads for a written number and the double
    that an arithmetic operation returns for its exact result:
    [Float64.round] for the router as it runs; the identity gives exact
    arithmetic. *)
Variable fl : Q -> Q.

(** ** weightedRandomSelection *)

Definition totalWeight (paths : list path) : Q :=
  fold_left (fun sum p => fl (sum + fl (weight p))%Q) paths 0%Q.

(** The [for (const path of executionPaths)] loop; [None] when it falls
    through to the fallback. *)
Fixpoint weightedLoop (random : Q) (paths : list path) : option path :=
  match paths with
  | [] => None
  | p :: rest =>
      let random' := fl (random - fl (weight p))%Q in
      if Qle_bool random' 0 then Some p else weightedLoop random' rest
  end.

(** [None] is JavaScript's [undefined]: [executionPaths[0]] of an empty
    array. *)
Definition weightedRandomSelection (paths : list path) (g : rng)
  : option path * rng :=
  let (r, g') := Math_random g in
  let random := fl (r * totalWeight paths)%Q in
  match weightedLoop random paths with
  | Some p => (Some p, g')
  | None => (head paths, g')
  end.

(** ** thompsonSampling *)

Section Sampler.

(** [Math.pow] on the draws: a real power, taken as given. *)
Variable pow : Q -> Q -> Q.

Definition betaSample (alpha beta : Z) (g : rng) : JS.num * rng :=
  let (x, g1) := Math_random g in
  let (y, g2) := Math_random g1 in
  let px := pow x (1 / inject_Z alpha)%Q in
  let py := pow y (1 / inject_Z beta)%Q in
  (JS.div (JS.Num px) (JS.Num (px + py)%Q), g2).

(** [betaSample(alpha, beta) / (stats.avgLatency / 1000)].  With the
    counters of an inherited member, [alpha] and [beta] are NaN, and so
    are both powers and the sample; the two draws are still made. *)
Definition sampleFor (s : option stats) (g : rng) : JS.num * rng :=
  match s with
  | Some s =>
      let (b, g') := betaSample (alphaOf s) (betaOf s) g in
      (JS.div b (JS.Num (avgLatency s / 1000)%Q), g')
  | None =>
      let (_, g1) := Math_random g in
      let (_, g2) := Math_random g1 in
      (JS.NaN, g2)
  end.

Fixpoint thompsonLoop (pathStats : gmap string stats) (paths : list path)
    (bestPath : option path) (bestSample : JS.num) (g : rng)
  : option path * JS.num * rng :=
  match paths with
  | [] => (bestPath, bestSample, g)
  | p :: rest =>
      let (sample, g') := sampleFor (statsOf pathStats p) g in
      if JS.gt sample bestSample
      then thompsonLoop pathStats rest (Some p) sample g'
      else thompsonLoop pathStats rest bestPath bestSample g'
  end.

Definition thompsonSampling (paths : list path)
    (pathStats : gmap string stats) (g : rng) : option path * rng :=
  let '(bestPath, _, g') := thompsonLoop pathStats paths None JS.NInf g in
  match bestPath with
  | Some p => (Some p, g')
  | None => (head paths, g')
  end.

(** ** hasEnoughSamples, selectExecutionPath *)

Definition totalSamples (pathStats : gmap string stats) : Z :=
  map_fold (fun _ s sum => sum + totalCount s) 0 pathStats.

Definition hasEnoughSamples (cfg : config) (pathStats : gmap string stats)
  : bool :=
  minSampleSize cfg <=? totalSamples pathStats.

Definition selectExecutionPath (cfg : config)
    (pathStats : gmap string stats) (g : rng) : option path * rng :=
  if enableAdaptiveRouting cfg && hasEnoughSamples cfg pathStats
  then thompsonSampling (executionPaths cfg) pathStats g
  else weightedRandomSelection (executionPaths cfg) g.

(** ** updatePathStats *)

(** The counters of an entry after one more observation. *)
Definition observe (latency : Z) (success : bool) (s0 : stats) : stats :=
  let total := totalCount s0 + 1 in
  let lat := totalLatency s0 + latency in
  {| successCount := if success then successCount s0 + 1 else successCount s0;
     totalCount := total;
     avgLatency := fl (inject_Z lat / inject_Z total)%Q;
     totalLatency := lat |}.

(** An entry is created only when [pathStats[pathName]] is falsy.  For an
    inherited member the increments go to the inherited object (where they
    leave NaN) and the table keeps its entries. *)
Definition updatePathStats (pathName : string) (latency : Z) (success : bool)
    (pathStats : gmap string stats) : gmap string stats :=
  match getProperty pathStats pathName with
  | Entry s0 => <[pathName := observe latency success s0]> pathStats
  | InheritedMember => pathStats
  | Undefined =>
      <[pathName :=
          observe latency success
            {| successCount := 0; totalCount := 0; avgLatency := 0;
               totalLatency := 0 |}]> pathStats
  end.

(** ** handler *)

(** What [lambda.send(new InvokeCommand(...))] does for a function name:
    it returns after [elapsed] ms with a payload, which parses to a status
    code and a body or does not parse, or it throws. *)
Inductive invocation : Type :=
| Returned (elapsed : Z) (parsed : option (option Z * string))
| Thrown.

Record response : Type := {
  statusCode : Z;
  quantumPath : option string;
  quantumLatency : option Z;
  body : string
}.

Definition internalServerError : response :=
  {| statusCode := 500; quantumPath := None; quantumLatency := None;
     body := "Internal server error" |}.

(** One request.  A path that is [undefined], or an invocation that
    throws, leads to the [catch] block before any statistics update; a
    payload that does not parse leads there after the update. *)
Definition handler (cfg : config) (invoke : string -> invocation)
    (st : gmap string stats * rng) : response * (gmap string stats * rng) :=
  let (pathStats, g) := st in
  let (selected, g') := selectExecutionPath cfg pathStats g in
  match selected with
  | None => (internalServerError, (pathStats, g'))
  | Some selectedPath =>
      match invoke (functionName selectedPath) with
      | Thrown => (internalServerError, (pathStats, g'))
      | Returned latency parsed =>
          let pathStats' :=
            updatePathStats (name selectedPath) latency true pathStats in
          match parsed with
          | None => (internalServerError, (pathStats', g'))
          | Some (code, text) =>
              ({| statusCode :=
                    match code with
                    | Some c => if c =? 0 then 200 else c
                    | None => 200
                    end;
                  quantumPath := Some (name selectedPath);
                  quantumLatency := Some latency;
                  body := text |},
               (pathStats', g'))
          end
      end
  end.

End Sampler.

(** The remainder after the loop of [weightedRandomSelection] has
    subtracted the weights of [pre], one after the other. *)
Definition remainder (random : Q) (pre : list path) : Q :=
  fold_left (fun r p => fl (r - fl (weight p))%Q) pre random.

End Arithmetic.

(** The states of the router's table: empty at cold start, then one
    [handler] run after the other. *)
Inductive reachable (fl : Q -> Q) (pow : Q -> Q -> Q) (cfg : config)
  : gmap string stats * rng -> Prop :=
| reach_init g : reachable fl pow cfg (∅, g)
| reach_step st invoke :
    reachable fl pow cfg st ->
    reachable fl pow cfg (snd (handler fl pow cfg invoke st)).

(** The exact sum of the weights of a prefix. *)
Definition sumWeights (paths : list path) : Q :=
  fold_right (fun p acc => (weight p + acc)%Q) 0%Q paths.

(** The sample that the loop of [thompsonSampling] computes for the
    candidate at position [i]: it consumes draws [2i] and [2i+1]. *)
Definition sampleAt (pow : Q -> Q -> Q) (pathStats : gmap string stats)
    (paths : list path) (g : rng) (i : nat) : JS.num :=
  match paths !! i with
  | Some p => fst (sampleFor pow (statsOf pathStats p) (skip (2 * i)%nat g))
  | None => JS.NaN
  end.

(** What the loop of [thompsonSampling] knows after the first [n]
    candidates: the best path so far is the earliest one holding a sample
    that none of them exceeds. *)
Definition best_of_first (pow : Q -> Q -> Q) (pathStats : gmap string stats)
    (paths : list path) (g : rng) (n : nat) (bestPath : option path)
    (bestSample : JS.num) : Prop :=
  let sample := sampleAt pow pathStats paths g in
  match bestPath with
  | None =>
      bestSample = JS.NInf /\
      forall j, (j < n)%nat -> JS.gt (sample j) JS.NInf = false
  | Some w =>
      exists i,
        (i < n)%nat /\ paths !! i = Some w /\ bestSample = sample i /\
        (forall j, (j < n)%nat -> JS.gt (sample j) (sample i) = false) /\
        (forall j, (j < i)%nat -> JS.ge (sample j) (sample i) = false)
  end.



End Gate.

(* ===================================================================== *)
(** * The coordinator of the superposition engine *)
(* ===================================================================== *)

Module Superposition.

(** What [JSON.parse(result.Payload)] yields, as far as the measurement
    reads it. *)
Record payload : Type := {
  statusCode : option Z;
  executionTime : option Z;
  body : string
}.

(** The text of a payload: it parses or it does not. *)
Inductive json : Type :=
| Malformed
| Parsed (p : payload).

(** An entry of [event.results]; [Payload] is [None] when the field is
    missing or empty. *)
Record result : Type := {
  Payload : option json
}.

(** [event.metadata]; [startTime] is the epoch time in ms that
    [new Date(...).getTime()] reads from it, [None] when the field is
    falsy. *)
Record metadata : Type := {
  startTime : option Z
}.

(** The fields of the event that the measurement reads; [executionId] is
    [None] when the event lacks it. *)
Record event : Type := {
  executionId : option string;
  results : option (list (option result));
  eventMetadata : option metadata
}.

Record winning : Type := {
  pathId : nat;
  winningPayload : payload;
  winningTime : Z;
  latency : Z
}.

(** [payload.executionTime || timestamp] *)
Definition effectiveTime (timestamp : Z) (p : payload) : Z :=
  match executionTime p with
  | Some t => if t =? 0 then timestamp else t
  | None => timestamp
  end.

Definition isOk (p : payload) : bool :=
  match statusCode p with
  | Some c => c =? 200
  | None => false
  end.

(** [executionTime < fastestTime], where [None] is [Infinity]. *)
Definition faster (t : Z) (fastestTime : option Z) : bool :=
  match fastestTime with
  | Some f => t <? f
  | None => true
  end.

(** One iteration of the scan, on the pair [(winningResult, fastestTime)].
    Reading [event.metadata.startTime] of a missing [metadata] throws
    inside the [try], after [fastestTime] has been assigned. *)
Definition scanStep (timestamp : Z) (md : option metadata) (i : nat)
    (r : option result) (st : option winning * option Z)
  : option winning * option Z :=
  match r with
  | Some {| Payload := Some (Parsed p) |} =>
      let t := effectiveTime timestamp p in
      if isOk p && faster t (snd st) then
        match md with
        | Some m =>
            (Some {| pathId := i; winningPayload := p; winningTime := t;
                     latency :=
                       t - match startTime m with
                           | Some s => s
                           | None => timestamp
                           end |},
             Some t)
        | None => (fst st, Some t)
        end
      else st
  | _ => st
  end.

Fixpoint scan (timestamp : Z) (md : option metadata) (i : nat)
    (rs : list (option result)) (st : option winning * option Z)
  : option winning * option Z :=
  match rs with
  | [] => st
  | r :: rest =>
      scan timestamp md (S i) rest (scanStep timestamp md i r st)
  end.

(** [r && r.Payload] *)
Definition hasPayload (r : option result) : bool :=
  match r with
  | Some {| Payload := Some _ |} => true
  | _ => false
  end.

Record measurementRecord : Type := {
  recordId : option string;
  recordTimestamp : Z;
  winningPath : option nat;
  totalPaths : nat;
  successfulPaths : nat;
  recordLatency : option Z;
  ttl : Z
}.

(** The value returned to the state machine; [quantumEfficiency] is the
    text that [toFixed(2)] prints. *)
Inductive measurement : Type :=
| Collapsed (result : payload) (winningPath : nat) (latency : Z)
    (totalPaths : nat) (quantumEfficiency : string)
| Decoherent (totalPaths failedPaths : nat).

(** A call returns or throws. *)
Inductive completion (A : Type) : Type :=
| Returns (a : A)
| Throws.
Arguments Returns {A} a.
Arguments Throws {A}.

Definition winnerOf (timestamp : Z) (ev : event) : option winning :=
  fst (scan timestamp (eventMetadata ev) 0%nat
         (match results ev with Some rs => rs | None => [] end)
         (None, None)).

Definition recordOf (timestamp : Z) (ev : event) : measurementRecord :=
  let rs := match results ev with Some rs => rs | None => [] end in
  let w := winnerOf timestamp ev in
  {| recordId := executionId ev;
     recordTimestamp := timestamp;
     winningPath := option_map pathId w;
     totalPaths := length rs;
     successfulPaths := length (List.filter hasPayload rs);
     recordLatency := option_map latency w;
     ttl := timestamp / 1000 + 86400 |}.

(** [marshall(measurementRecord)] throws when a field of the record is
    [undefined]: the record can be sent only when it names an execution,
    a winning path and a latency. *)
Definition marshall (r : measurementRecord) : completion measurementRecord :=
  match recordId r, winningPath r, recordLatency r with
  | Some _, Some _, Some _ => Returns r
  | _, _, _ => Throws
  end.

(** [(latency / (results.length * 100)).toFixed(2)]: a division of
    doubles, printed with two decimals (a measurement with a winner has at
    least one path). *)
Definition quantumEfficiencyOf (latency : Z) (paths : nat) : string :=
  Float64.toFixed2
    (Float64.round (inject_Z latency / inject_Z (Z.of_nat paths * 100))%Q).

(** [performQuantumMeasurement]: the items it sends to the table and its
    completion.  [putItem] tells whether the write of the record succeeds;
    a record that cannot be marshalled is never sent, and both that and a
    failed write throw out of the function. *)
Definition performQuantumMeasurement (timestamp : Z)
    (putItem : measurementRecord -> bool) (ev : event)
  : list measurementRecord * completion measurement :=
  let rs := match results ev with Some rs => rs | None => [] end in
  match marshall (recordOf timestamp ev) with
  | Throws => ([], Throws)
  | Returns rec =>
      ([rec],
       if putItem rec then
         match winnerOf timestamp ev with
         | Some w =>
             Returns (Collapsed (winningPayload w) (pathId w) (latency w)
                        (length rs)
                        (quantumEfficiencyOf (latency w) (length rs)))
         | None => Returns (Decoherent (length rs) (length rs))
         end
       else Throws)
  end.

(** A participant of a race: the path's name, the time (ms after the
    start) at which it returns, and the entry it leaves in
    [event.results]. *)
Record racer : Type := {
  racerName : string;
  returnsAt : Z;
  entry : option result
}.

(** The entry is a successful result: it parses and carries status 200. *)
Definition succeeded (r : option result) : bool :=
  match r with
  | Some {| Payload := Some (Parsed p) |} => isOk p
  | _ => false
  end.

(** Following the spec's words: the first candidate to return a
    successful result. *)
Fixpoint firstToSucceed (rs : list racer) : option racer :=
  match rs with
  | [] => None
  | r :: rest =>
      match firstToSucceed rest with
      | Some r' =>
          if succeeded (entry r) && (returnsAt r <=? returnsAt r')
          then Some r else Some r'
      | None => if succeeded (entry r) then Some r else None
      end
  end.

(** The race as the state machine runs it: the entries in dispatch order
    are measured once all paths have returned. *)
Definition race (timestamp start : Z) (rs : list racer) : option racer :=
  match winnerOf timestamp
          {| executionId := Some "race"%string;
             results := Some (map entry rs);
             eventMetadata := Some {| startTime := Some start |} |} with
  | Some w => rs !! pathId w
  | None => None
  end.

(** The entry of path [j] parses to [q]. *)
Definition parsedAt (rs : list (option result)) (j : nat) (q : payload)
  : Prop :=
  rs !! j = Some (Some {| Payload := Some (Parsed q) |}).

(** What the scan knows after the first [n] entries, when the event
    carries its metadata [m]. *)
Definition scanned (timestamp : Z) (m : metadata)
    (rs : list (option result)) (n : nat) (st : option winning * option Z)
  : Prop :=
  match fst st with
  | None =>
      snd st = None /\
      forall j q, (j < n)%nat -> parsedAt rs j q -> isOk q = false
  | Some w =>
      snd st = Some (winningTime w) /\
      (pathId w < n)%nat /\
      parsedAt rs (pathId w) (winningPayload w) /\
      isOk (winningPayload w) = true /\
      winningTime w = effectiveTime timestamp (winningPayload w) /\
      latency w =
        winningTime w
        - match startTime m with Some s => s | None => timestamp end /\
      forall j q,
        (j < n)%nat -> parsedAt rs j q -> isOk q = true ->
        winningTime w <= effectiveTime timestamp q /\
        ((j < pathId w)%nat -> winningTime w < effectiveTime timestamp q)
  end.

(** ** initializeExecution and the handler *)

(** The event of the coordinator: the action, the fields that
    [initializeExecution] stores ([None] when the event lacks them) and
    the fields that the measurement reads. *)
Record request : Type := {
  action : string;
  input : option string;
  requestStartTime : option string;
  measured : event
}.

(** An item written to the result table. *)
Inductive item : Type :=
| InitializationItem (executionId : string) (timestamp : Z)
    (input startTime : string) (ttl : Z)
| MeasurementItem (r : measurementRecord).

(** What the coordinator returns to the state machine. *)
Inductive answer : Type :=
| Initialized (executionId : string) (timestamp : Z)
| Measured (m : measurement).

(** [marshall(item)] throws when [event.executionId], [event.input] or
    [event.startTime] is [undefined], before anything is sent; then the
    item is written, and a failed write throws. *)
Definition initializeExecution (timestamp : Z) (putItem : item -> bool)
    (rq : request) : list item * completion answer :=
  let ttl := timestamp / 1000 + 86400 in
  match executionId (measured rq), input rq, requestStartTime rq with
  | Some id, Some i, Some s =>
      let it := InitializationItem id timestamp i s ttl in
      ([it],
       if putItem it then Returns (Initialized id timestamp)
       else Throws)
  | _, _, _ => ([], Throws)
  end.

(** The handler: the items it sends to the table and its completion.
    An unknown action throws before anything is written. *)
Definition handler (timestamp : Z) (putItem : item -> bool)
    (rq : request) : list item * completion answer :=
  if String.eqb (action rq) "initialize" then
    initializeExecution timestamp putItem rq
  else if String.eqb (action rq) "measure" then
    let (sent, c) :=
      performQuantumMeasurement timestamp
        (fun r => putItem (MeasurementItem r)) (measured rq) in
    (map MeasurementItem sent,
     match c with
     | Returns m => Returns (Measured m)
     | Throws => Throws
     end)
  else ([], Throws).

(** The time-to-live attribute of an item. *)
Definition ttlOf (it : item) : Z :=
  match it with
  | InitializationItem _ _ _ _ t => t
  | MeasurementItem r => ttl r
  end.

End Superposition.

(* ===================================================================== *)
(** * The orchestrator of the hedged request pattern ([hedged-request.ts]) *)
(* ===================================================================== *)

Module Hedge.

(** The environment of the orchestrator; the hedge threshold is a
    number of milliseconds, not negative. *)
Record config : Type := {
  primaryFunctionName : string;
  backupFunctionNames : list string;
  hedgeThresholdMs : Z;
  maxHedgedRequests : nat;
  enableSpeculative : bool
}.

(** The fields of the request that the orchestrator reads. *)
Record event : Type := {
  requestId : option string;
  priority : option string;
  userId : option string;
  action : option string;
  productId : option string
}.

(** An item of the metrics table, as the decision reads it: [latency] is
    [None] when missing, [success] is [Some false] exactly when the field
    is the boolean [false]. *)
Record metric : Type := {
  latency : option Z;
  success : option bool
}.

Inductive strategyType : Type :=
| IMMEDIATE_HEDGE
| DELAYED_HEDGE
| SPECULATIVE
| PRIMARY_ONLY.

Record strategy : Type := {
  type : strategyType;
  reason : string
}.

Inductive logEntry : Type :=
| ConsoleLog (msg : string)
| ConsoleWarn (msg : string)
| ConsoleError (msg : string).

(** ** Windowed statistics *)

(** [metric.latency || 0] *)
Definition latencyOf (m : metric) : Z :=
  match latency m with Some l => l | None => 0 end.

Definition sumLatency (metrics : list metric) : Z :=
  fold_left (fun acc m => acc + latencyOf m) metrics 0.

Definition calculateAverageLatency (metrics : list metric) : Q :=
  match metrics with
  | [] => 0%Q
  | _ => (inject_Z (sumLatency metrics)
          / inject_Z (Z.of_nat (length metrics)))%Q
  end.

(** [sort((a, b) => a - b)]: ascending insertion sort. *)
Fixpoint insertAsc (x : Z) (l : list Z) : list Z :=
  match l with
  | [] => [x]
  | y :: rest => if x <=? y then x :: l else y :: insertAsc x rest
  end.

Fixpoint sortAsc (l : list Z) : list Z :=
  match l with
  | [] => []
  | x :: rest => insertAsc x (sortAsc rest)
  end.

(** [Math.ceil((percentile / 100) * sorted.length) - 1] *)
Definition percentileIndex (percentile : Z) (n : nat) : Z :=
  Qceiling ((inject_Z percentile / 100) * inject_Z (Z.of_nat n))%Q - 1.

(** [None] is [undefined], the element of an index past the end. *)
Definition calculatePercentileLatency (metrics : list metric)
    (percentile : Z) : option Z :=
  match metrics with
  | [] => Some 0
  | _ =>
      let sorted := sortAsc (map latencyOf metrics) in
      let index := percentileIndex percentile (length sorted) in
      sorted !! Z.to_nat (Z.max 0 index)
  end.

(** [m.success === false] *)
Definition isFailure (m : metric) : bool :=
  match success m with
  | Some false => true
  | _ => false
  end.

Definition calculateErrorRate (metrics : list metric) : Q :=
  match metrics with
  | [] => 0%Q
  | _ => (inject_Z (Z.of_nat (length (List.filter isFailure metrics)))
          / inject_Z (Z.of_nat (length metrics)))%Q
  end.

(** [event.priority === 'high' || event.userId?.startsWith('premium-')] *)
Definition isHighValueRequest (ev : event) : bool :=
  match priority ev with
  | Some "high"%string => true
  | _ =>
      match userId ev with
      | Some u => String.prefix "premium-" u
      | None => false
      end
  end.

(** ** determineExecutionStrategy *)

(** [p95Latency > hedgeThresholdMs * 2]; a comparison with [undefined] is
    false. *)
Definition exceeds (v : option Z) (bound : Z) : bool :=
  match v with
  | Some x => bound <? x
  | None => false
  end.

Definition decide_strategy (cfg : config) (recentMetrics : list metric)
    (ev : event) : strategy :=
  let avgLatency := calculateAverageLatency recentMetrics in
  let p95Latency := calculatePercentileLatency recentMetrics 95 in
  let errorRate := calculateErrorRate recentMetrics in
  if JS.Qgtb errorRate (5 # 100) then
    {| type := IMMEDIATE_HEDGE; reason := "High error rate detected" |}
  else if exceeds p95Latency (hedgeThresholdMs cfg * 2) then
    {| type := IMMEDIATE_HEDGE; reason := "High P95 latency" |}
  else if JS.Qgtb avgLatency (inject_Z (hedgeThresholdMs cfg)) then
    {| type := DELAYED_HEDGE; reason := "Average latency above threshold" |}
  else if enableSpeculative cfg && isHighValueRequest ev then
    {| type := SPECULATIVE; reason := "High value request optimization" |}
  else
    {| type := PRIMARY_ONLY; reason := "Normal performance conditions" |}.

(** ** getRecentMetrics *)

(** What the query of the metrics table does: it answers, with or
    without [Items], or it throws. *)
Inductive queryOutcome : Type :=
| QueryAnswer (items : option (list metric))
| QueryThrows.

Definition getRecentMetrics (q : queryOutcome) : list metric * list logEntry :=
  match q with
  | QueryAnswer (Some items) => (items, [])
  | QueryAnswer None => ([], [])
  | QueryThrows => ([], [ConsoleWarn "Failed to get recent metrics:"])
  end.

Definition determineExecutionStrategy (cfg : config) (q : queryOutcome)
    (ev : event) : strategy * list logEntry :=
  let (recentMetrics, logs) := getRecentMetrics q in
  (decide_strategy cfg recentMetrics ev, logs).

(** ** Invocations on the virtual clock *)

(** The payload of an executor, parsed: [error] tells whether its [error]
    field is truthy. *)
Record response : Type := {
  error : bool;
  data : string
}.

(** What [lambda.send] does for a function: after [delay] ms it answers
    with a payload that parses, answers without payload, or throws. *)
Inductive reply : Type :=
| Answer (r : response)
| NoPayload
| SendThrows.

Record behaviour : Type := {
  delay : Z;
  outcome : reply
}.

(** The errors of the orchestrator.  [AllHedgedFailed detail] is
    [new Error('All hedged requests failed' ...)], with the text that
    follows the colon when there is one. *)
Inductive exn : Type :=
| Aborted
| NoPayloadReturned
| InvocationError
| AllHedgedFailed (detail : option string).

(** A promise with the time at which it settles; [Pending] never does. *)
Inductive promise (A : Type) : Type :=
| Fulfilled (at_ : Z) (v : A)
| Rejected (at_ : Z) (e : exn)
| Pending.
Arguments Fulfilled {A} at_ v.
Arguments Rejected {A} at_ e.
Arguments Pending {A}.

(** The abort timer fires when the answer has not come before it.  The
    timeouts of the orchestrator are multiples of the hedge threshold,
    which is taken to be non-negative (a negative delay of [setTimeout]
    is clamped). *)
Definition invokeFunctionWithTimeout (world : string -> behaviour)
    (functionName : string) (timeoutMs : Z) : promise response :=
  let b := world functionName in
  if timeoutMs <=? delay b then Rejected timeoutMs Aborted
  else
    match outcome b with
    | Answer r => Fulfilled (delay b) r
    | NoPayload => Rejected (delay b) NoPayloadReturned
    | SendThrows => Rejected (delay b) InvocationError
    end.

(** The promise is rejected at some time. *)
Definition rejected {A : Type} (p : promise A) : Prop :=
  exists t e, p = Rejected t e.

(** A promise created [t] ms later. *)
Definition startedAt {A : Type} (t : Z) (p : promise A) : promise A :=
  match p with
  | Fulfilled a v => Fulfilled (t + a) v
  | Rejected a e => Rejected (t + a) e
  | Pending => Pending
  end.

Inductive source : Type :=
| primary
| backup (i : nat).

Record hedgedRequestMetadata : Type := {
  mdStrategy : strategyType;
  winner : option source;
  hedgesTriggered : option nat;
  speculativeExecutions : option nat;
  mdRequestId : string
}.

(** [{ ...result, hedgedRequestMetadata: { ... } }] *)
Record output : Type := {
  payload : response;
  metadata : hedgedRequestMetadata
}.

(** [index === 0 ? 'primary' : `backup-${index-1}`] *)
Definition sourceOf (index : nat) : source :=
  match index with
  | O => primary
  | S i => backup i
  end.

(** ** executeImmediateHedgedRequest *)

(** What a wrapped promise of the race settles with. *)
Inductive raced : Type :=
| Won (at_ : Z) (r : response) (w : source)
| Lost (at_ : Z) (e : exn) (src : source)
| Never.

Definition wrap (index : nat) (p : promise response) : raced :=
  match p with
  | Fulfilled t r => Won t r (sourceOf index)
  | Rejected t e => Lost t e (sourceOf index)
  | Pending => Never
  end.

Definition settlesAt (r : raced) : option Z :=
  match r with
  | Won t _ _ | Lost t _ _ => Some t
  | Never => None
  end.

(** The wrapped promise settles at some time. *)
Definition settledRaced (r : raced) : Prop := settlesAt r <> None.

(** [a] settles no later than [b]. *)
Definition settlesFirst (a b : raced) : bool :=
  match settlesAt a, settlesAt b with
  | Some ta, Some tb => ta <=? tb
  | Some _, None => true
  | None, _ => false
  end.

(** [Promise.race]: the promise that settles first, fulfilled or
    rejected; among promises settling at the same time, the first of the
    array. *)
Fixpoint Promise_race (ps : list raced) : raced :=
  match ps with
  | [] => Never
  | p :: rest =>
      let r := Promise_race rest in
      if settlesFirst p r then p
      else match settlesAt r with Some _ => r | None => p end
  end.

Definition executeImmediateHedgedRequest (cfg : config)
    (world : string -> behaviour) (rid : string) : promise output :=
  let promises :=
    invokeFunctionWithTimeout world (primaryFunctionName cfg)
      (hedgeThresholdMs cfg * 2)
    :: map (fun name =>
              invokeFunctionWithTimeout world name (hedgeThresholdMs cfg * 2))
         (take (maxHedgedRequests cfg) (backupFunctionNames cfg)) in
  match Promise_race (imap wrap promises) with
  | Won t r w =>
      Fulfilled t
        {| payload := r;
           metadata :=
             {| mdStrategy := IMMEDIATE_HEDGE; winner := Some w;
                hedgesTriggered := None; speculativeExecutions := None;
                mdRequestId := rid |} |}
  | Lost t _ _ =>
      (* the caught value is [{ error, source }]: it has no [message] *)
      Rejected t (AllHedgedFailed (Some "undefined"))
  | Never => Pending
  end.

(** The invocations that take part in the immediate hedge, the primary
    first. *)
Definition immediateParticipants (cfg : config)
    (world : string -> behaviour) : list (promise response) :=
  invokeFunctionWithTimeout world (primaryFunctionName cfg)
    (hedgeThresholdMs cfg * 2)
  :: map (fun name =>
            invokeFunctionWithTimeout world name (hedgeThresholdMs cfg * 2))
       (take (maxHedgedRequests cfg) (backupFunctionNames cfg)).

(** The number of backups that the timer of the delayed hedge starts. *)
Definition hedgeCount (cfg : config) : nat :=
  Nat.min (maxHedgedRequests cfg) (length (backupFunctionNames cfg)).

(** ** executeDelayedHedgedRequest *)

(** A call of [resolve] or [reject] of the returned promise. *)
Inductive call : Type :=
| Resolve (out : output)
| Reject (e : exn).

(** The earliest of the calls, the first listed among simultaneous ones:
    it settles the promise, later calls have no effect. *)
Fixpoint firstCall (calls : list (Z * call)) : option (Z * call) :=
  match calls with
  | [] => None
  | c :: rest =>
      match firstCall rest with
      | Some c' => if fst c <=? fst c' then Some c else Some c'
      | None => Some c
      end
  end.

(** An entry of the array that [Promise.all] yields: an [Error] or not. *)
Inductive settledEntry : Type :=
| AnError
| NotAnError.

Definition isError (e : settledEntry) : bool :=
  match e with AnError => true | NotAnError => false end.

Definition settleTime {A : Type} (p : promise A) : Z :=
  match p with
  | Fulfilled t _ | Rejected t _ => t
  | Pending => 0
  end.

Definition executeDelayedHedgedRequest (cfg : config)
    (world : string -> behaviour) (rid : string) : promise output :=
  let T := hedgeThresholdMs cfg in
  let primaryPromise :=
    invokeFunctionWithTimeout world (primaryFunctionName cfg) (T * 3) in
  (* [clearTimeout] is only reached when the primary is fulfilled *)
  let timerFires :=
    match primaryPromise with
    | Fulfilled t _ => T <=? t
    | _ => true
    end in
  (* the backups invoked by the timer, at time [T] *)
  let hedges : list (promise response) :=
    if timerFires then
      map (fun name => startedAt T (invokeFunctionWithTimeout world name T))
        (take (Nat.min (maxHedgedRequests cfg)
                 (length (backupFunctionNames cfg)))
           (backupFunctionNames cfg))
    else [] in
  let md (w : source) (n : nat) :=
    {| mdStrategy := DELAYED_HEDGE; winner := Some w;
       hedgesTriggered := Some n; speculativeExecutions := None;
       mdRequestId := rid |} in
  let primaryCalls :=
    match primaryPromise with
    | Fulfilled t r =>
        [(t, Resolve {| payload := r; metadata := md primary (length hedges) |})]
    | _ => []
    end in
  let hedgeCalls :=
    omap (fun x => x)
      (imap (fun i p =>
               match p with
               | Fulfilled t r =>
                   Some (t, Resolve {| payload := r;
                                       metadata :=
                                         md (backup i) (length hedges + 1)%nat |})
               | _ => None
               end) hedges) in
  (* [Promise.all([primaryPromise, ...hedgePromises].map(p => p.catch(e => e)))]:
     a hedge promise is fulfilled with [undefined] by its own handlers *)
  let allCalls :=
    if timerFires then
      let results :=
        match primaryPromise with
        | Rejected _ _ => AnError
        | _ => NotAnError
        end :: map (fun _ => NotAnError) hedges in
      let errors := List.filter isError results in
      if (length errors =? length results)%nat then
        [(fold_right Z.max (Z.max T (settleTime primaryPromise))
            (map settleTime hedges),
          Reject (AllHedgedFailed None))]
      else []
    else [] in
  match firstCall (primaryCalls ++ hedgeCalls ++ allCalls) with
  | Some (t, Resolve out) => Fulfilled t out
  | Some (t, Reject e) => Rejected t e
  | None => Pending
  end.

(** ** executeSpeculativeRequest, executePrimaryOnly *)

Record speculativePayload : Type := {
  spAction : string;
  spUserId : option string;
  spProductId : option string
}.

Definition generateSpeculativePayloads (ev : event)
  : list speculativePayload :=
  (match action ev with
   | Some "getUser"%string =>
       [{| spAction := "getUserOrders"; spUserId := userId ev;
           spProductId := None |}]
   | _ => []
   end)
  ++
  (match action ev with
   | Some "addToCart"%string =>
       [{| spAction := "getCart"; spUserId := userId ev;
           spProductId := None |};
        {| spAction := "getRelatedProducts"; spUserId := None;
           spProductId := productId ev |}]
   | _ => []
   end).

(** The speculative invocations are started after the primary's answer
    and never awaited: only their number reaches the result. *)
Definition executeSpeculativeRequest (cfg : config)
    (world : string -> behaviour) (ev : event) (rid : string)
  : promise output :=
  let speculativePayloads := generateSpeculativePayloads ev in
  match invokeFunctionWithTimeout world (primaryFunctionName cfg)
          (hedgeThresholdMs cfg * 2) with
  | Fulfilled t r =>
      Fulfilled t
        {| payload := r;
           metadata :=
             {| mdStrategy := SPECULATIVE; winner := None;
                hedgesTriggered := None;
                speculativeExecutions := Some (length speculativePayloads);
                mdRequestId := rid |} |}
  | Rejected t e => Rejected t e
  | Pending => Pending
  end.

Definition executePrimaryOnly (cfg : config)
    (world : string -> behaviour) (rid : string) : promise output :=
  match invokeFunctionWithTimeout world (primaryFunctionName cfg)
          (hedgeThresholdMs cfg * 3) with
  | Fulfilled t r =>
      Fulfilled t
        {| payload := r;
           metadata :=
             {| mdStrategy := PRIMARY_ONLY; winner := None;
                hedgesTriggered := None; speculativeExecutions := None;
                mdRequestId := rid |} |}
  | Rejected t e => Rejected t e
  | Pending => Pending
  end.

(** ** recordExecutionMetrics, handler *)

Record metricsItem : Type := {
  itemFunctionName : string;
  itemTimestamp : Z;
  itemRequestId : string;
  itemLatency : Z;
  itemSuccess : bool;
  itemStrategy : strategyType;
  itemStrategyReason : string;
  itemTtl : Z
}.

(** The metrics table: the outcome of the query, the time it takes and
    whether a write succeeds. *)
Record store : Type := {
  query : queryOutcome;
  queryMs : Z;
  putItem : metricsItem -> bool
}.

(** The item written at [endTime], and the warning when the write
    throws. *)
Definition recordExecutionMetrics (cfg : config) (st : store)
    (rid : string) (startTime endTime : Z) (result : output) (s : strategy)
  : list metricsItem * list logEntry :=
  let metricsItem :=
    {| itemFunctionName := primaryFunctionName cfg;
       itemTimestamp := endTime;
       itemRequestId := rid;
       itemLatency := endTime - startTime;
       itemSuccess := negb (error (payload result));
       itemStrategy := type s;
       itemStrategyReason := reason s;
       itemTtl := endTime / 1000 + 86400 |} in
  ([metricsItem],
   if putItem st metricsItem then []
   else [ConsoleWarn "Failed to record metrics:"]).

(** One run of the handler: how its promise settles, the writes it sent
    to the metrics table and what it logged. *)
Record run : Type := {
  settled : promise output;
  writes : list metricsItem;
  console : list logEntry
}.

(** [event.requestId || generateRequestId()]: a missing and an empty
    identifier are both falsy; [freshId] is the identifier that
    [generateRequestId()] would make. *)
Definition requestIdOf (ev : event) (freshId : string) : string :=
  match requestId ev with
  | Some EmptyString => freshId
  | Some r => r
  | None => freshId
  end.

(** The [switch (strategy.type)] of the handler: the execution of the
    chosen strategy. *)
Definition executeStrategy (cfg : config) (world : string -> behaviour)
    (ev : event) (rid : string) (s : strategy) : promise output :=
  match type s with
  | IMMEDIATE_HEDGE => executeImmediateHedgedRequest cfg world rid
  | DELAYED_HEDGE => executeDelayedHedgedRequest cfg world rid
  | SPECULATIVE => executeSpeculativeRequest cfg world ev rid
  | PRIMARY_ONLY => executePrimaryOnly cfg world rid
  end.

(** One request of the orchestrator.  The strategy execution starts once
    the query of the metrics table has answered; its result is recorded
    and returned, and what it throws is logged and thrown again. *)
Definition handler (cfg : config) (world : string -> behaviour)
    (st : store) (freshId : string) (startTime : Z) (ev : event) : run :=
  let rid := requestIdOf ev freshId in
  let (s, logs) := determineExecutionStrategy cfg (query st) ev in
  let result := executeStrategy cfg world ev rid s in
  match startedAt (queryMs st) result with
  | Fulfilled t out =>
      let (items, warns) :=
        recordExecutionMetrics cfg st rid startTime (startTime + t) out s in
      {| settled := Fulfilled t out; writes := items;
         console := logs ++ warns |}
  | Rejected t e =>
      {| settled := Rejected t e; writes := [];
         console := logs ++ [ConsoleError "Hedged Request Error:"] |}
  | Pending =>
      {| settled := Pending; writes := []; console := logs |}
  end.

End Hedge.

(* ===================================================================== *)
(** * The processor of the entanglement bus ([entanglement-bus.ts]) *)
(* ===================================================================== *)

Module Entanglement.

Section Chunks.

Context {A : Type}.

(** The loop of [chunkArray], on the elements from index [i] on: while
    some are left it pushes [array.slice(i, i + chunkSize)] and moves [i]
    by [chunkSize].  [None] when [fuel] iterations do not end it. *)
Fixpoint chunkLoop (fuel : nat) (rest : list A) (chunkSize : nat)
  : option (list (list A)) :=
  match rest with
  | [] => Some []
  | _ =>
      match fuel with
      | O => None
      | S fuel' =>
          match chunkLoop fuel' (drop chunkSize rest) chunkSize with
          | Some chunks => Some (take chunkSize rest :: chunks)
          | None => None
          end
      end
  end.

(** One iteration per element is enough whenever the loop ends. *)
Definition chunkArray (array : list A) (chunkSize : nat)
  : option (list (list A)) :=
  chunkLoop (length array) array chunkSize.

(** [publishEvents]: one [PutEvents] command per chunk of ten, in order;
    [send] tells whether a command succeeds, and a failed one throws.  The
    result is the list of the commands sent and whether the function
    returned. *)
Fixpoint sendAll (send : list A -> bool) (chunks : list (list A))
  : list (list A) * bool :=
  match chunks with
  | [] => ([], true)
  | chunk :: rest =>
      if send chunk then
        let (sent, ok) := sendAll send rest in (chunk :: sent, ok)
      else ([chunk], false)
  end.

Definition publishEvents (send : list A -> bool) (events : list A)
  : option (list (list A) * bool) :=
  match chunkArray events 10 with
  | Some chunks => Some (sendAll send chunks)
  | None => None
  end.

End Chunks.

End Entanglement.

(* ===================================================================== *)
(** * The collaborative-filtering executor ([quantum-demo-stack.ts]) *)
(* ===================================================================== *)

Module Recommendations.









End Recommendations.

(* ===================================================================== *)
(** * Concrete configurations and runs *)
(* ===================================================================== *)

Module Examples.

Local Open Scope string_scope.

(** ** The router *)

Definition collaborative : Gate.path :=
  {| Gate.name := "collaborative"; Gate.weight := 3;
     Gate.functionName := "collaborative-fn" |}.

Definition contentBased : Gate.path :=
  {| Gate.name := "content-based"; Gate.weight := 1;
     Gate.functionName := "content-based-fn" |}.

Definition gateConfig : Gate.config :=
  {| Gate.executionPaths := [collaborative; contentBased];
     Gate.enableAdaptiveRouting := true;
     Gate.minSampleSize := 100 |}.

(** A generator that always draws one half. *)
Definition halves : Gate.rng :=
  {| Gate.draws := fun _ => (1 # 2)%Q; Gate.cursor := 0 |}.

(** A stand-in for [Math.pow] that is exact for the exponent 1. *)
Definition firstPower (x e : Q) : Q := x.

(** Every function answers after 12 ms with status 200. *)
Definition answering (functionName : string) : Gate.invocation :=
  Gate.Returned 12 (Some (Some 200, "ok")).

(** The router's state after one request from a cold start. *)
Definition afterOneRequest : gmap string Gate.stats * Gate.rng :=
  snd (Gate.handler Float64.round firstPower gateConfig answering
         (∅, halves)).

(** A generator that always draws [r]. *)
Definition drawing (r : Q) : Gate.rng :=
  {| Gate.draws := fun _ => r; Gate.cursor := 0 |}.

Definition weighing (name : string) (weight : Q) : Gate.path :=
  {| Gate.name := name; Gate.weight := weight;
     Gate.functionName := name |}.

(** Three paths with the weights 0.1, 0.2 and 0.3. *)
Definition tenths : list Gate.path :=
  [weighing "a" (1 # 10); weighing "b" (2 # 10); weighing "c" (3 # 10)].

(** Three paths with the weights 0.71, 7.5 and 0.66. *)
Definition drifting : list Gate.path :=
  [weighing "a" (71 # 100); weighing "b" (75 # 10); weighing "c" (66 # 100)].

(** The draw [1 - 2^-52]. *)
Definition almostOne : Q := (4503599627370495 # 4503599627370496)%Q.

(** A router whose second path is named like a member that every object
    inherits. *)
Definition inheritedName : Gate.path :=
  {| Gate.name := "constructor"; Gate.weight := 1;
     Gate.functionName := "constructor-fn" |}.

Definition inheritedConfig : Gate.config :=
  {| Gate.executionPaths := [inheritedName; contentBased];
     Gate.enableAdaptiveRouting := true;
     Gate.minSampleSize := 100 |}.



(** ** The race coordinator *)

(** An entry as the executors of this repository answer: status 200 and
    no [executionTime] field at the top of the payload. *)
Definition plainSuccess (text : string) : option Superposition.result :=
  Some {| Superposition.Payload :=
            Some (Superposition.Parsed
                    {| Superposition.statusCode := Some 200;
                       Superposition.executionTime := None;
                       Superposition.body := text |}) |}.

(** An entry whose payload reports the time at which it finished. *)
Definition timedSuccess (text : string) (t : Z)
  : option Superposition.result :=
  Some {| Superposition.Payload :=
            Some (Superposition.Parsed
                    {| Superposition.statusCode := Some 200;
                       Superposition.executionTime := Some t;
                       Superposition.body := text |}) |}.

(** An entry that reports a server error. *)
Definition serverError : option Superposition.result :=
  Some {| Superposition.Payload :=
            Some (Superposition.Parsed
                    {| Superposition.statusCode := Some 500;
                       Superposition.executionTime := None;
                       Superposition.body := "failed" |}) |}.

(** A succeeds at 50 ms, B succeeds at 10 ms. *)
Definition racerA : Superposition.racer :=
  {| Superposition.racerName := "A"; Superposition.returnsAt := 50;
     Superposition.entry := plainSuccess "a" |}.

Definition racerB : Superposition.racer :=
  {| Superposition.racerName := "B"; Superposition.returnsAt := 10;
     Superposition.entry := plainSuccess "b" |}.

Definition plainPayloadA : Superposition.payload :=
  {| Superposition.statusCode := Some 200;
     Superposition.executionTime := None;
     Superposition.body := "a" |}.

(** The event that the measurement receives for A and B, A dispatched
    first. *)
Definition plainRace : Superposition.event :=
  {| Superposition.executionId := Some "exec-3";
     Superposition.results := Some [plainSuccess "a"; plainSuccess "b"];
     Superposition.eventMetadata :=
       Some {| Superposition.startTime := Some 0 |} |}.

(** The same two paths, with payloads that report when they finished. *)
Definition timedA : Superposition.racer :=
  {| Superposition.racerName := "A"; Superposition.returnsAt := 50;
     Superposition.entry := timedSuccess "a" 50 |}.

Definition timedB : Superposition.racer :=
  {| Superposition.racerName := "B"; Superposition.returnsAt := 10;
     Superposition.entry := timedSuccess "b" 10 |}.

Definition timedPayloadB : Superposition.payload :=
  {| Superposition.statusCode := Some 200;
     Superposition.executionTime := Some 10;
     Superposition.body := "b" |}.

(** The event that the measurement receives for A and B. *)
Definition timedRace : Superposition.event :=
  {| Superposition.executionId := Some "exec-0";
     Superposition.results :=
       Some [timedSuccess "a" 50; timedSuccess "b" 10];
     Superposition.eventMetadata :=
       Some {| Superposition.startTime := Some 0 |} |}.

(** The event for A and B without its metadata. *)
Definition bareRace : Superposition.event :=
  {| Superposition.executionId := Some "exec-2";
     Superposition.results :=
       Some [timedSuccess "a" 50; timedSuccess "b" 10];
     Superposition.eventMetadata := None |}.

(** A race whose only path answers with status 500. *)
Definition failedRace : Superposition.event :=
  {| Superposition.executionId := Some "exec-1";
     Superposition.results := Some [serverError];
     Superposition.eventMetadata :=
       Some {| Superposition.startTime := Some 0 |} |}.

(** ** The hedge orchestrator *)

Definition hedgeConfig : Hedge.config :=
  {| Hedge.primaryFunctionName := "primary-fn";
     Hedge.backupFunctionNames := ["backup-fn"];
     Hedge.hedgeThresholdMs := 100;
     Hedge.maxHedgedRequests := 2;
     Hedge.enableSpeculative := false |}.

(** The same orchestrator without backups. *)
Definition loneConfig : Hedge.config :=
  {| Hedge.primaryFunctionName := "primary-fn";
     Hedge.backupFunctionNames := [];
     Hedge.hedgeThresholdMs := 100;
     Hedge.maxHedgedRequests := 2;
     Hedge.enableSpeculative := false |}.

Definition plainEvent : Hedge.event :=
  {| Hedge.requestId := Some "req-1"; Hedge.priority := None;
     Hedge.userId := None; Hedge.action := None; Hedge.productId := None |}.

(** An event whose request identifier is the empty string. *)
Definition unnamedEvent : Hedge.event :=
  {| Hedge.requestId := Some EmptyString; Hedge.priority := None;
     Hedge.userId := None; Hedge.action := None; Hedge.productId := None |}.

Definition backupAnswer : Hedge.response :=
  {| Hedge.error := false; Hedge.data := "from backup" |}.

(** The primary throws after 10 ms, the backup answers after 80 ms. *)
Definition primaryFailsBackupAnswers (functionName : string)
  : Hedge.behaviour :=
  if String.eqb functionName "primary-fn"
  then {| Hedge.delay := 10; Hedge.outcome := Hedge.SendThrows |}
  else {| Hedge.delay := 80; Hedge.outcome := Hedge.Answer backupAnswer |}.

(** The primary throws after 10 ms, the backup throws 20 ms after it was
    invoked. *)
Definition everyoneFails (functionName : string) : Hedge.behaviour :=
  if String.eqb functionName "primary-fn"
  then {| Hedge.delay := 10; Hedge.outcome := Hedge.SendThrows |}
  else {| Hedge.delay := 20; Hedge.outcome := Hedge.SendThrows |}.

(** Everyone answers after 40 ms. *)
Definition everyoneAnswers (functionName : string) : Hedge.behaviour :=
  {| Hedge.delay := 40; Hedge.outcome := Hedge.Answer backupAnswer |}.

(** A metrics table that cannot be queried but accepts writes. *)
Definition unavailableStore : Hedge.store :=
  {| Hedge.query := Hedge.QueryThrows; Hedge.queryMs := 3;
     Hedge.putItem := fun _ => true |}.

(** A metrics table without observations. *)
Definition emptyStore : Hedge.store :=
  {| Hedge.query := Hedge.QueryAnswer (Some []); Hedge.queryMs := 3;
     Hedge.putItem := fun _ => true |}.

Definition observation (l : Z) (ok : bool) : Hedge.metric :=
  {| Hedge.latency := Some l; Hedge.success := Some ok |}.

(** Four observations, one of them a failure. *)
Definition window : list Hedge.metric :=
  [observation 120 true; observation 80 true; observation 300 false;
   observation 100 true].

(** A metrics table whose window makes the decision DELAYED_HEDGE. *)
Definition slowStore : Hedge.store :=
  {| Hedge.query :=
       Hedge.QueryAnswer
         (Some [observation 120 true; observation 130 true]);
     Hedge.queryMs := 3;
     Hedge.putItem := fun _ => true |}.

End Examples.

(* ===================================================================== *)
(** * Facts about JavaScript comparisons *)
(* ===================================================================== *)

Module JSFacts.
Import JS.

Lemma Qgtb_true a b : Qgtb a b = true <-> (b < a)%Q.
Proof.
  unfold Qgtb. rewrite negb_true_iff. split.
  - intros H. apply Qnot_le_lt. intros Hle.
    apply Qle_bool_iff in Hle. congruence.
  - intros H. destruct (Qle_bool a b) eqn:E; [|reflexivity].
    apply Qle_bool_iff in E. exfalso. eapply Qlt_not_le; eauto.
Qed.

Lemma Qgtb_false a b : Qgtb a b = false <-> (a <= b)%Q.
Proof.
  unfold Qgtb. rewrite negb_false_iff. apply Qle_bool_iff.
Qed.

Lemma gt_ge a b : gt a b = true -> ge a b = true.
Proof.
  destruct a, b; simpl; try congruence.
  intros H. apply Qgtb_true in H. apply Qle_bool_iff. apply Qlt_le_weak, H.
Qed.

Lemma not_ge_not_gt a b : ge a b = false -> gt a b = false.
Proof.
  intros H. destruct (gt a b) eqn:E; [|reflexivity].
  apply gt_ge in E. congruence.
Qed.

Lemma gt_irrefl a : gt a a = false.
Proof.
  destruct a; simpl; try reflexivity.
  apply Qgtb_false. apply Qle_refl.
Qed.

(** A sample that beats the best so far is not reached by any sample
    that did not beat it. *)
Lemma gt_not_gt_not_ge a b c :
  gt c b = true -> gt a b = false -> ge a c = false.
Proof.
  destruct a, b, c; simpl; try congruence.
  intros H1 H2. apply Qgtb_true in H1. apply Qgtb_false in H2.
  destruct (Qle_bool q1 q) eqn:E; [|reflexivity].
  apply Qle_bool_iff in E. exfalso.
  apply (Qlt_not_le _ _ H1). eapply Qle_trans; eauto.
Qed.


End JSFacts.

(* ===================================================================== *)
(** * The rounding of doubles *)
(* ===================================================================== *)

Module Float64Facts.

(** [Float64.round] against the doubles of the machine, on operands of
    the sizes that the router and the coordinator meet. *)
Lemma round_agrees_with_the_machine :
  forallb (fun ab => Float64.agrees (fst ab) (snd ab))
    [(1 / 10, 2 / 10); (3 / 10, 1 / 10 + 2 / 10); (1 / 2, 6 / 10);
     (71 / 100, 75 / 10); (821 / 100, 66 / 100); (1 / 3, 3);
     (1000, 200); (-4975, 1000); (12, 7); (1, 4503599627370496);
     (9007199254740992, 3); (1 / 1024, 1 / 3)]%float
  = true.
Proof. vm_compute. reflexivity. Qed.

(** [toFixed(2)] rounds the double, not the decimal that was written. *)
Lemma toFixed2_examples :
  Float64.toFixed2 (Float64.round (-4975 # 1000)) = "-4.97"%string /\
  Float64.toFixed2 (Float64.round (1005 # 1000)) = "1.00"%string /\
  Float64.toFixed2 (Float64.round (2675 # 1000)) = "2.67"%string /\
  Float64.toFixed2 (1 # 8) = "0.13"%string /\
  Float64.toFixed2 (- (1 # 8)) = "-0.13"%string /\
  Float64.toFixed2 (- (1 # 1000)) = "-0.00"%string /\
  Float64.toFixed2 0 = "0.00"%string /\
  Float64.toFixed2 (Float64.round (1000 / 200)) = "5.00"%string /\
  Float64.toFixed2 (Float64.round (10 / 200)) = "0.05"%string.
Proof. vm_compute. repeat split. Qed.

End Float64Facts.

(* ===================================================================== *)
(** * The path selector *)
(* ===================================================================== *)

Module GateProofs.
Import Gate.

(** ** Weighted random selection *)

Lemma Qle_bool_false a b : Qle_bool a b = false -> (b < a)%Q.
Proof.
  intros H. destruct (Qlt_le_dec b a) as [Hlt|Hle]; [exact Hlt|].
  apply Qle_bool_iff in Hle. congruence.
Qed.


(** The loop stops at the first path whose subtraction brings the
    remainder to zero or below. *)
Lemma weightedLoop_Some fl paths : forall random p,
  weightedLoop fl random paths = Some p ->
  exists pre post,
    paths = pre ++ p :: post /\
    (remainder fl random (pre ++ [p]) <= 0)%Q /\
    (forall pre1 q post1,
        pre = pre1 ++ q :: post1 ->
        (0 < remainder fl random (pre1 ++ [q]))%Q).
Proof.
  induction paths as [|p0 rest IH]; intros random p H; simpl in H.
  - discriminate.
  - destruct (Qle_bool (fl (random - fl (weight p0))%Q) 0) eqn:E.
    + injection H as <-. exists [], rest. split; [reflexivity|]. split.
      * apply Qle_bool_iff in E. exact E.
      * intros [|x pre1] q post1 Hpre; discriminate.
    + apply IH in H as (pre & post & -> & Hle & Hbefore).
      exists (p0 :: pre), post. split; [reflexivity|]. split.
      * exact Hle.
      * intros [|x pre1] q post1 Hpre; injection Hpre as -> ->.
        -- apply Qle_bool_false, E.
        -- exact (Hbefore pre1 q post1 eq_refl).
Qed.


Lemma weightedRandomSelection_fst fl paths g :
  fst (weightedRandomSelection fl paths g) =
  match weightedLoop fl (fl (draws g (cursor g) * totalWeight fl paths)%Q)
          paths with
  | Some p => Some p
  | None => head paths
  end.
Proof.
  unfold weightedRandomSelection, Math_random.
  destruct (weightedLoop fl _ paths); reflexivity.
Qed.

(** *** The scaled draw under a monotone rounding *)

Section Rounding.

Variable fl : Q -> Q.
Hypothesis fl_monotone : forall a b, (a <= b)%Q -> (fl a <= fl b)%Q.
Hypothesis fl_zero : (0 <= fl 0)%Q.
Hypothesis fl_idempotent : forall q, (fl (fl q) <= fl q)%Q.




End Rounding.

(** *** Exact arithmetic *)

Section Exact.

Variable fl : Q -> Q.
Hypothesis fl_exact : forall q, (fl q == q)%Q.




Lemma sumWeights_app pre post :
  (sumWeights (pre ++ post) == sumWeights pre + sumWeights post)%Q.
Proof.
  induction pre as [|p rest IH]; simpl; [lra|]. rewrite IH. lra.
Qed.



End Exact.

(** The rounding of doubles decides the selection: with the weights 0.1,
    0.2 and 0.3 and the draw 0.5 the router selects the third path, where
    exact arithmetic finds the second; with the weights 0.71, 7.5 and 0.66
    and the draw [1 - 2^-52] no remainder reaches zero and the fallback
    returns the first path. *)
Lemma rounding_decides_the_selection :
  option_map name
    (fst (weightedRandomSelection Float64.round Examples.tenths
            (Examples.drawing (1 # 2)))) = Some "c"%string /\
  option_map name
    (fst (weightedRandomSelection (fun q => q) Examples.tenths
            (Examples.drawing (1 # 2)))) = Some "b"%string /\
  weightedLoop Float64.round
    (Float64.round
       (Examples.almostOne * totalWeight Float64.round Examples.drifting))
    Examples.drifting = None /\
  option_map name
    (fst (weightedRandomSelection Float64.round Examples.drifting
            (Examples.drawing Examples.almostOne))) = Some "a"%string.
Proof.
  repeat split; vm_compute; reflexivity.
Qed.


(** ** Thompson sampling *)

Section Thompson.

Variable pow : Q -> Q -> Q.
Variable pathStats : gmap string stats.
Variable paths : list path.
Variable g : rng.

Local Abbreviation sample := (sampleAt pow pathStats paths g).
Local Abbreviation best_of_first := (Gate.best_of_first pow pathStats paths g).

(** Every candidate costs two draws. *)
Lemma sampleFor_snd s g0 : snd (sampleFor pow s g0) = skip 2 g0.
Proof. destruct s; reflexivity. Qed.

Lemma skip_next n : skip 2 (skip (2 * n) g) = skip (2 * S n) g.
Proof. unfold skip. simpl. f_equal. lia. Qed.

Lemma sampleAt_lookup n p :
  paths !! n = Some p ->
  sample n = fst (sampleFor pow (statsOf pathStats p) (skip (2 * n) g)).
Proof. unfold sampleAt. intros ->. reflexivity. Qed.

Lemma best_of_first_step n p bestPath bestSample :
  paths !! n = Some p ->
  best_of_first n bestPath bestSample ->
  if JS.gt (sample n) bestSample
  then best_of_first (S n) (Some p) (sample n)
  else best_of_first (S n) bestPath bestSample.
Proof.
  intros Hp Hinv. destruct (JS.gt (sample n) bestSample) eqn:Hgt.
  - (* the new candidate takes over *)
    assert (forall j, (j < n)%nat -> JS.ge (sample j) (sample n) = false)
      as Hbelow.
    { intros j Hj. destruct bestPath as [w|]; unfold Gate.best_of_first in Hinv.
      - destruct Hinv as (i & _ & _ & -> & Hall & _).
        eapply JSFacts.gt_not_gt_not_ge; [exact Hgt|]. apply Hall, Hj.
      - destruct Hinv as [-> Hall].
        eapply JSFacts.gt_not_gt_not_ge; [exact Hgt|]. apply Hall, Hj. }
    exists n. repeat split; [lia|exact Hp| |exact Hbelow].
    intros j Hj. destruct (Nat.eq_dec j n) as [->|Hne].
    + apply JSFacts.gt_irrefl.
    + apply JSFacts.not_ge_not_gt, Hbelow. lia.
  - (* the best so far stays *)
    destruct bestPath as [w|]; unfold Gate.best_of_first in *.
    + destruct Hinv as (i & Hi & Hw & -> & Hall & Hbefore).
      exists i. repeat split; [lia|exact Hw| |exact Hbefore].
      intros j Hj. destruct (Nat.eq_dec j n) as [->|Hne];
        [exact Hgt|apply Hall; lia].
    + destruct Hinv as [-> Hall]. split; [reflexivity|].
      intros j Hj. destruct (Nat.eq_dec j n) as [->|Hne];
        [exact Hgt|apply Hall; lia].
Qed.

Lemma thompsonLoop_best rest : forall done bestPath bestSample,
  paths = done ++ rest ->
  best_of_first (length done) bestPath bestSample ->
  let r :=
    thompsonLoop pow pathStats rest bestPath bestSample
      (skip (2 * length done) g) in
  best_of_first (length paths) (fst (fst r)) (snd (fst r)).
Proof.
  induction rest as [|p rest IH]; intros done bestPath bestSample Hsplit Hinv.
  - simpl. assert (length paths = length done) as ->
      by (rewrite Hsplit, app_nil_r; reflexivity).
    exact Hinv.
  - assert (paths !! length done = Some p) as Hp.
    { rewrite Hsplit, lookup_app_r by lia.
      rewrite Nat.sub_diag. reflexivity. }
    pose proof (best_of_first_step _ _ _ _ Hp Hinv) as Hstep.
    rewrite (sampleAt_lookup _ _ Hp) in Hstep.
    cbn [thompsonLoop].
    destruct (sampleFor pow (statsOf pathStats p) (skip (2 * length done) g))
      as [smp g'] eqn:E.
    assert (g' = skip (2 * S (length done)) g) as ->.
    { rewrite <- skip_next.
      rewrite <- (sampleFor_snd (statsOf pathStats p)), E. reflexivity. }
    simpl fst in Hstep.
    assert (paths = (done ++ [p]) ++ rest) as Hsplit'
      by (rewrite <- app_assoc; exact Hsplit).
    assert (length (done ++ [p]) = S (length done)) as Hlen
      by (rewrite length_app; simpl; lia).
    destruct (JS.gt smp bestSample).
    + specialize (IH (done ++ [p]) (Some p) smp Hsplit').
      rewrite Hlen in IH. apply IH, Hstep.
    + specialize (IH (done ++ [p]) bestPath bestSample Hsplit').
      rewrite Hlen in IH. apply IH, Hstep.
Qed.

End Thompson.


(** ** The path statistics *)

Lemma updatePathStats_cases fl pathName latency success
    (pathStats : gmap string stats) :
  (getProperty pathStats pathName = InheritedMember /\
   pathStats !! pathName = None /\ inherited pathName = true /\
   updatePathStats fl pathName latency success pathStats = pathStats) \/
  (inherited pathName = false /\ pathStats !! pathName = None /\
   updatePathStats fl pathName latency success pathStats
   = <[pathName :=
         observe fl latency success
           {| successCount := 0; totalCount := 0; avgLatency := 0;
              totalLatency := 0 |}]> pathStats) \/
  (exists s0,
     pathStats !! pathName = Some s0 /\
     updatePathStats fl pathName latency success pathStats
     = <[pathName := observe fl latency success s0]> pathStats).
Proof.
  unfold updatePathStats, getProperty.
  destruct (pathStats !! pathName) as [s0|] eqn:E.
  - right. right. exists s0. auto.
  - destruct (inherited pathName) eqn:I.
    + left. auto.
    + right. left. auto.
Qed.

Lemma updatePathStats_success fl pathName latency
    (pathStats : gmap string stats) :
  map_Forall (fun _ s => successCount s = totalCount s) pathStats ->
  map_Forall (fun _ s => successCount s = totalCount s)
    (updatePathStats fl pathName latency true pathStats).
Proof.
  intros Hinv.
  destruct (updatePathStats_cases fl pathName latency true pathStats)
    as [(_ & _ & _ & ->)|[(_ & _ & ->)|(s0 & E & ->)]].
  - exact Hinv.
  - apply map_Forall_insert_2; [reflexivity|exact Hinv].
  - apply map_Forall_insert_2; [|exact Hinv].
    apply Hinv in E. cbn beta in E. simpl. lia.
Qed.

(** The table never holds an entry under an inherited name. *)
Lemma updatePathStats_own fl pathName latency success
    (pathStats : gmap string stats) :
  map_Forall (fun nm _ => inherited nm = false) pathStats ->
  map_Forall (fun nm _ => inherited nm = false)
    (updatePathStats fl pathName latency success pathStats).
Proof.
  intros Hinv.
  destruct (updatePathStats_cases fl pathName latency success pathStats)
    as [(_ & _ & _ & ->)|[(I & _ & ->)|(s0 & E & ->)]].
  - exact Hinv.
  - apply map_Forall_insert_2; [exact I|exact Hinv].
  - apply map_Forall_insert_2; [|exact Hinv].
    exact (Hinv _ _ E).
Qed.

(** A run of the handler leaves the table alone or records one success. *)
Lemma handler_stats fl pow cfg invoke (pathStats : gmap string stats) g :
  let st' := snd (handler fl pow cfg invoke (pathStats, g)) in
  fst st' = pathStats \/
  exists p latency parsed,
    fst (selectExecutionPath fl pow cfg pathStats g) = Some p /\
    invoke (functionName p) = Returned latency parsed /\
    fst st' = updatePathStats fl (name p) latency true pathStats.
Proof.
  unfold handler.
  destruct (selectExecutionPath fl pow cfg pathStats g) as [[p|] g'];
    [|left; reflexivity].
  destruct (invoke (functionName p)) as [latency parsed|] eqn:E;
    [|left; reflexivity].
  right. exists p, latency, parsed.
  destruct parsed as [[code text]|]; simpl; auto.
Qed.

Lemma reachable_success_equals_total fl pow cfg st :
  reachable fl pow cfg st ->
  map_Forall (fun _ s => successCount s = totalCount s) (fst st).
Proof.
  induction 1 as [g|[pathStats g] invoke Hreach IH].
  - simpl. apply map_Forall_empty.
  - simpl in IH.
    destruct (handler_stats fl pow cfg invoke pathStats g)
      as [Heq|(p & latency & parsed & _ & _ & Heq)]; rewrite Heq.
    + exact IH.
    + apply updatePathStats_success, IH.
Qed.

Lemma reachable_own_names fl pow cfg st :
  reachable fl pow cfg st ->
  map_Forall (fun nm _ => inherited nm = false) (fst st).
Proof.
  induction 1 as [g|[pathStats g] invoke Hreach IH].
  - simpl. apply map_Forall_empty.
  - simpl in IH.
    destruct (handler_stats fl pow cfg invoke pathStats g)
      as [Heq|(p & latency & parsed & _ & _ & Heq)]; rewrite Heq.
    + exact IH.
    + apply updatePathStats_own, IH.
Qed.

(** C10. In every state that the router's table can reach, a run of the
    handler changes the table only by [updatePathStats(name, latency, true)]
    after an invocation that returned, and leaves it unchanged when the
    invocation throws; so every entry has successCount = totalCount and no
    entry sits under a name that the table inherits.  What the adaptive
    selector reads for a path is therefore an entry without a recorded
    failure (its beta parameter is 1), or the default statistics when the
    path has no entry, or, for a path named like an inherited member, no
    counters at all (its sample is NaN). *)
Theorem pathStats_records_only_successes
    (fl : Q -> Q) (pow : Q -> Q -> Q) (cfg : config)
    (st : gmap string stats * rng) :
  reachable fl pow cfg st ->
  (forall invoke,
      let st' := snd (handler fl pow cfg invoke st) in
      fst st' = fst st \/
      exists p latency parsed,
        fst (selectExecutionPath fl pow cfg (fst st) (snd st)) = Some p /\
        invoke (functionName p) = Returned latency parsed /\
        fst st' = updatePathStats fl (name p) latency true (fst st)) /\
  (forall invoke p,
      fst (selectExecutionPath fl pow cfg (fst st) (snd st)) = Some p ->
      invoke (functionName p) = Thrown ->
      fst (snd (handler fl pow cfg invoke st)) = fst st) /\
  map_Forall (fun _ s => successCount s = totalCount s) (fst st) /\
  (forall nm s, fst st !! nm = Some s -> inherited nm = false) /\
  (forall nm,
      In nm ["constructor"; "toString"; "valueOf"; "hasOwnProperty";
             "__proto__"]%string ->
      fst st !! nm = None /\ getProperty (fst st) nm = InheritedMember) /\
  (forall p,
      match getProperty (fst st) (name p) with
      | Entry s =>
          fst st !! name p = Some s /\ statsOf (fst st) p = Some s /\
          successCount s = totalCount s /\ betaOf s = 1
      | Undefined =>
          fst st !! name p = None /\ inherited (name p) = false /\
          statsOf (fst st) p = Some defaultStats
      | InheritedMember =>
          fst st !! name p = None /\ inherited (name p) = true /\
          statsOf (fst st) p = None /\
          forall g, fst (sampleFor pow (statsOf (fst st) p) g) = JS.NaN
      end).
Proof.
  intros Hreach.
  pose proof (reachable_success_equals_total fl pow cfg st Hreach) as Hinv.
  pose proof (reachable_own_names fl pow cfg st Hreach) as Hown.
  destruct st as [pathStats g]. simpl in *.
  split; [|split; [|split; [|split; [|split]]]].
  - intros invoke. apply handler_stats.
  - intros invoke p Hsel Hthrown. unfold handler.
    destruct (selectExecutionPath fl pow cfg pathStats g) as [sel g'].
    simpl in Hsel. subst sel. rewrite Hthrown. reflexivity.
  - exact Hinv.
  - intros nm s Hs. exact (Hown _ _ Hs).
  - intros nm Hnm.
    assert (inherited nm = true) as I.
    { simpl in Hnm.
      repeat (destruct Hnm as [<-|Hnm]; [reflexivity|]). destruct Hnm. }
    assert (pathStats !! nm = None) as E.
    { destruct (pathStats !! nm) as [s|] eqn:E; [|reflexivity].
      pose proof (Hown _ _ E) as Hf. cbn beta in Hf. congruence. }
    split; [exact E|]. unfold getProperty. rewrite E, I. reflexivity.
  - intros p. unfold statsOf, getProperty.
    destruct (pathStats !! name p) as [s|] eqn:E.
    + pose proof (Hinv _ _ E) as Heq. cbn beta in Heq.
      repeat split; [exact Heq|]. unfold betaOf. lia.
    + destruct (inherited (name p)) eqn:I; repeat split.
Qed.

Lemma pathStats_records_only_successes_witness :
  reachable Float64.round Examples.firstPower Examples.gateConfig
    Examples.afterOneRequest /\
  map_Forall (fun _ s => successCount s = totalCount s)
    (fst Examples.afterOneRequest).
Proof.
  assert (reachable Float64.round Examples.firstPower Examples.gateConfig
            Examples.afterOneRequest) as Hreach
    by (apply reach_step, reach_init).
  split; [exact Hreach|].
  exact (proj1 (proj2 (proj2
    (pathStats_records_only_successes _ _ _ _ Hreach)))).
Defined.

(** A path named like an inherited member never gets an entry: after a
    request routed to it the table is still empty, and the selector reads
    no counters for it. *)
Lemma inherited_name_is_never_recorded :
  let st := snd (handler Float64.round Examples.firstPower
                   Examples.inheritedConfig Examples.answering
                   (∅, Examples.drawing 0)) in
  fst (selectExecutionPath Float64.round Examples.firstPower
         Examples.inheritedConfig ∅ (Examples.drawing 0))
  = Some Examples.inheritedName /\
  fst st = ∅ /\
  statsOf (fst st) Examples.inheritedName = None.
Proof.
  repeat split.
Qed.






End GateProofs.

(* ===================================================================== *)
(** * The race coordinator *)
(* ===================================================================== *)

Module SuperpositionProofs.
Import Superposition.

Section Scan.

Variable timestamp : Z.
Variable m : metadata.
Variable rs : list (option result).

(** An entry without a successful payload changes nothing. *)
Lemma scanned_skip n st :
  scanned timestamp m rs n st ->
  (forall q, parsedAt rs n q -> isOk q = false) ->
  scanned timestamp m rs (S n) st.
Proof.
  intros Hinv Hn. unfold scanned in *.
  destruct (fst st) as [w|].
  - destruct Hinv as (Hf & Hlt & Hw & Hok & Ht & Hl & Hall).
    do 6 (split; [first [assumption|lia]|]).
    intros j q Hj Hq Hq'.
    destruct (Nat.eq_dec j n) as [->|Hne].
    + rewrite (Hn q Hq) in Hq'. discriminate.
    + apply (Hall j q); [lia|assumption..].
  - destruct Hinv as [Hf Hall]. split; [exact Hf|].
    intros j q Hj Hq. destruct (Nat.eq_dec j n) as [->|Hne].
    + apply Hn, Hq.
    + apply (Hall j); [lia|exact Hq].
Qed.

(** A success that is not faster than the winner so far changes
    nothing. *)
Lemma scanned_slower n w f p :
  scanned timestamp m rs n (Some w, f) ->
  parsedAt rs n p ->
  winningTime w <= effectiveTime timestamp p ->
  scanned timestamp m rs (S n) (Some w, f).
Proof.
  intros Hinv Hp Hle. unfold scanned in *. simpl in *.
  destruct Hinv as (Hf & Hlt & Hw & Hok & Ht & Hl & Hall).
  do 6 (split; [first [assumption|lia]|]).
  intros j q Hj Hq Hq'.
  destruct (Nat.eq_dec j n) as [->|Hne].
  - unfold parsedAt in *. assert (q = p) as -> by congruence.
    split; [exact Hle|lia].
  - apply (Hall j q); [lia|assumption..].
Qed.

(** A success that is faster than every success before it becomes the
    winner. *)
Lemma scanned_faster n st p :
  scanned timestamp m rs n st ->
  parsedAt rs n p ->
  isOk p = true ->
  faster (effectiveTime timestamp p) (snd st) = true ->
  scanned timestamp m rs (S n)
    (Some {| pathId := n; winningPayload := p;
             winningTime := effectiveTime timestamp p;
             latency :=
               effectiveTime timestamp p
               - match startTime m with Some s => s | None => timestamp end |},
     Some (effectiveTime timestamp p)).
Proof.
  intros Hinv Hp Hok Hfast.
  assert (forall j q, (j < n)%nat -> parsedAt rs j q -> isOk q = true ->
          effectiveTime timestamp p < effectiveTime timestamp q) as Hbefore.
  { intros j q Hj Hq Hq'. unfold scanned in Hinv.
    destruct (fst st) as [w|].
    - destruct Hinv as (Hf & _ & _ & _ & _ & _ & Hall).
      rewrite Hf in Hfast. simpl in Hfast. apply Z.ltb_lt in Hfast.
      destruct (Hall j q Hj Hq Hq') as [Hle _]. lia.
    - destruct Hinv as [_ Hall]. rewrite (Hall j q Hj Hq) in Hq'.
      discriminate. }
  unfold scanned. simpl.
  do 6 (split; [first [assumption|reflexivity|lia]|]).
  intros j q Hj Hq Hq'.
  destruct (Nat.eq_dec j n) as [->|Hne].
  - unfold parsedAt in *. assert (q = p) as -> by congruence. lia.
  - assert (effectiveTime timestamp p < effectiveTime timestamp q)
      by (apply (Hbefore j); [lia|assumption..]).
    lia.
Qed.

Lemma scanStep_scanned n r st :
  rs !! n = Some r ->
  scanned timestamp m rs n st ->
  scanned timestamp m rs (S n) (scanStep timestamp (Some m) n r st).
Proof.
  intros Hr Hinv. unfold scanStep.
  destruct r as [[[[|p]|]]|];
    try (simpl; apply scanned_skip; [exact Hinv|];
         intros q Hq; unfold parsedAt in Hq; congruence).
  assert (parsedAt rs n p) as Hp by exact Hr.
  destruct (isOk p) eqn:Hok; simpl.
  - destruct (faster (effectiveTime timestamp p) (snd st)) eqn:Hfast.
    + apply (scanned_faster n st p); assumption.
    + destruct st as [[w|] f]; simpl in Hfast.
      * apply (scanned_slower n w f p Hinv Hp).
        unfold scanned in Hinv. simpl in Hinv.
        destruct Hinv as (-> & _). simpl in Hfast.
        apply Z.ltb_ge in Hfast. exact Hfast.
      * unfold scanned in Hinv. simpl in Hinv. destruct Hinv as [-> _].
        discriminate.
  - apply scanned_skip; [exact Hinv|].
    intros q Hq. unfold parsedAt in *. assert (q = p) as -> by congruence.
    exact Hok.
Qed.

Lemma scan_scanned rest : forall done st,
  rs = done ++ rest ->
  scanned timestamp m rs (length done) st ->
  scanned timestamp m rs (length rs)
    (scan timestamp (Some m) (length done) rest st).
Proof.
  induction rest as [|r rest IH]; intros done st Hsplit Hinv.
  - simpl. assert (length rs = length done) as ->
      by (rewrite Hsplit, app_nil_r; reflexivity).
    exact Hinv.
  - simpl.
    assert (rs !! length done = Some r) as Hr.
    { rewrite Hsplit, lookup_app_r by lia.
      rewrite Nat.sub_diag. reflexivity. }
    assert (length (done ++ [r]) = S (length done)) as Hlen
      by (rewrite length_app; simpl; lia).
    specialize (IH (done ++ [r])
                  (scanStep timestamp (Some m) (length done) r st)).
    rewrite Hlen in IH. apply IH.
    + rewrite <- app_assoc. exact Hsplit.
    + apply scanStep_scanned; assumption.
Qed.

End Scan.

(** Without metadata no entry ever becomes the winner. *)
Lemma scan_no_metadata timestamp rs : forall i st,
  fst st = None -> fst (scan timestamp None i rs st) = None.
Proof.
  induction rs as [|r rest IH]; intros i st Hst; simpl; [exact Hst|].
  apply IH. unfold scanStep.
  destruct r as [[[[|p]|]]|]; try exact Hst.
  destruct (isOk p && faster (effectiveTime timestamp p) (snd st));
    [simpl; exact Hst|exact Hst].
Qed.

(** The measurement of an event that carries its metadata. *)
Lemma winnerOf_scanned timestamp ev m :
  eventMetadata ev = Some m ->
  let rs := match results ev with Some rs => rs | None => [] end in
  scanned timestamp m rs (length rs)
    (scan timestamp (Some m) 0%nat rs (None, None)).
Proof.
  intros Hm rs.
  apply (scan_scanned timestamp m rs rs [] (None, None) eq_refl).
  unfold scanned. simpl. split; [reflexivity|]. intros j q Hj. lia.
Qed.

Lemma parsedAt_lt rs j q : parsedAt rs j q -> (j < length rs)%nat.
Proof. unfold parsedAt. intros H. eapply lookup_lt_Some, H. Qed.

(** The winner is a successful candidate with the least reported time,
    the first one among those that report it. *)
Lemma winnerOf_least timestamp ev w :
  winnerOf timestamp ev = Some w ->
  let rs := match results ev with Some rs => rs | None => [] end in
  parsedAt rs (pathId w) (winningPayload w) /\
  isOk (winningPayload w) = true /\
  winningTime w = effectiveTime timestamp (winningPayload w) /\
  forall j q,
    parsedAt rs j q -> isOk q = true ->
    winningTime w <= effectiveTime timestamp q /\
    ((j < pathId w)%nat -> winningTime w < effectiveTime timestamp q).
Proof.
  intros Hw rs. unfold winnerOf in Hw.
  destruct (eventMetadata ev) as [m|] eqn:Hm.
  - pose proof (winnerOf_scanned timestamp ev m Hm) as Hinv.
    simpl in Hinv. fold rs in Hw, Hinv.
    unfold scanned in Hinv. rewrite Hw in Hinv.
    destruct Hinv as (_ & _ & Hp & Hok & Ht & _ & Hall).
    do 3 (split; [assumption|]).
    intros j q Hq Hq'. apply (Hall j q); [|assumption..].
    eapply parsedAt_lt, Hq.
  - rewrite scan_no_metadata in Hw by reflexivity. discriminate.
Qed.

(** When A reports 50 and B reports 10, B is the winner in either
    invocation order. *)
Lemma reported_times_decide timestamp start :
  race timestamp start [Examples.timedA; Examples.timedB]
    = Some Examples.timedB /\
  race timestamp start [Examples.timedB; Examples.timedA]
    = Some Examples.timedB.
Proof.
  split; reflexivity.
Qed.

(** C1, the failing input: A succeeds at 50 ms and B at 10 ms, both
    answering as the executors of this repository do (status 200, no
    [executionTime] at the top of the payload).  B is the first to return
    a successful result, in either invocation order; yet the collapse
    returns A when A was dispatched first, since both payloads count with
    the measurement's timestamp and the scan keeps the first of equal
    times: the measurement returns A's payload as the collapsed result,
    and the winner changes with the invocation order. *)
Theorem race_returns_first_dispatched :
  firstToSucceed [Examples.racerA; Examples.racerB] = Some Examples.racerB /\
  firstToSucceed [Examples.racerB; Examples.racerA] = Some Examples.racerB /\
  race 1000 0 [Examples.racerA; Examples.racerB] = Some Examples.racerA /\
  race 1000 0 [Examples.racerB; Examples.racerA] = Some Examples.racerB /\
  race 1000 0 [Examples.racerA; Examples.racerB]
    <> firstToSucceed [Examples.racerA; Examples.racerB] /\
  snd (performQuantumMeasurement 1000 (fun _ => true) Examples.plainRace)
    = Returns (Collapsed Examples.plainPayloadA 0 1000 2 "5.00").
Proof.
  repeat split; try reflexivity. discriminate.
Qed.

(** ** Decoherence *)

(** Without a successful candidate the measurement has no winner. *)
Lemma no_success_no_winner timestamp ev :
  let rs := match results ev with Some rs => rs | None => [] end in
  (forall j q, parsedAt rs j q -> isOk q = false) ->
  winnerOf timestamp ev = None.
Proof.
  intros rs Hfail. destruct (winnerOf timestamp ev) as [w|] eqn:Hw;
    [|reflexivity].
  destruct (winnerOf_least timestamp ev w Hw) as (Hp & Hok & _).
  fold rs in Hp. rewrite (Hfail _ _ Hp) in Hok. discriminate.
Qed.

(** With the metadata in place, a successful candidate makes a winner. *)
Lemma success_makes_winner timestamp ev m j q :
  eventMetadata ev = Some m ->
  parsedAt (match results ev with Some rs => rs | None => [] end) j q ->
  isOk q = true ->
  winnerOf timestamp ev <> None.
Proof.
  intros Hm Hq Hok Hnone.
  pose proof (winnerOf_scanned timestamp ev m Hm) as Hinv. simpl in Hinv.
  unfold winnerOf in Hnone. rewrite Hm in Hnone.
  unfold scanned in Hinv. rewrite Hnone in Hinv. destruct Hinv as [_ Hall].
  rewrite (Hall j q) in Hok; [discriminate| |exact Hq].
  eapply parsedAt_lt, Hq.
Qed.

(** A measurement without a winner throws before anything is sent: its
    record cannot be marshalled. *)
Lemma no_winner_throws timestamp putItem ev :
  winnerOf timestamp ev = None ->
  marshall (recordOf timestamp ev) = Throws /\
  performQuantumMeasurement timestamp putItem ev = ([], Throws).
Proof.
  intros Hw. unfold performQuantumMeasurement, marshall, recordOf. simpl.
  rewrite Hw. destruct (executionId ev); split; reflexivity.
Qed.

(** A measurement throws before anything is sent when the event lacks
    its execution id. *)
Lemma no_execution_id_throws timestamp putItem ev :
  executionId ev = None ->
  marshall (recordOf timestamp ev) = Throws /\
  performQuantumMeasurement timestamp putItem ev = ([], Throws).
Proof.
  intros Hid. unfold performQuantumMeasurement, marshall, recordOf. simpl.
  rewrite Hid. split; reflexivity.
Qed.

(** A measurement with a winner sends its record, and returns the
    collapsed result when the write succeeds. *)
Lemma winner_collapses timestamp putItem ev id w :
  executionId ev = Some id ->
  winnerOf timestamp ev = Some w ->
  let rs := match results ev with Some rs => rs | None => [] end in
  marshall (recordOf timestamp ev) = Returns (recordOf timestamp ev) /\
  performQuantumMeasurement timestamp putItem ev
  = ([recordOf timestamp ev],
     if putItem (recordOf timestamp ev)
     then Returns (Collapsed (winningPayload w) (pathId w) (latency w)
                     (length rs)
                     (quantumEfficiencyOf (latency w) (length rs)))
     else Throws).
Proof.
  intros Hid Hw rs.
  assert (marshall (recordOf timestamp ev) = Returns (recordOf timestamp ev))
    as Hm.
  { unfold marshall, recordOf. simpl. rewrite Hid, Hw. reflexivity. }
  split; [exact Hm|].
  unfold performQuantumMeasurement. rewrite Hm, Hw. reflexivity.
Qed.

(** When no candidate succeeds, the measurement throws and nothing is
    written. *)
Lemma all_failed_throws timestamp putItem ev :
  let rs := match results ev with Some rs => rs | None => [] end in
  (forall j q, parsedAt rs j q -> isOk q = false) ->
  performQuantumMeasurement timestamp putItem ev = ([], Throws).
Proof.
  intros rs Hfail.
  apply no_winner_throws, no_success_no_winner, Hfail.
Qed.

(** The measurement never returns the decoherent result. *)
Lemma never_decoherent timestamp putItem ev n k :
  snd (performQuantumMeasurement timestamp putItem ev)
  <> Returns (Decoherent n k).
Proof.
  destruct (winnerOf timestamp ev) as [w|] eqn:Hw.
  - destruct (executionId ev) as [id|] eqn:Hid.
    + rewrite (proj2 (winner_collapses timestamp putItem ev id w Hid Hw)).
      simpl. destruct (putItem _); discriminate.
    + rewrite (proj2 (no_execution_id_throws timestamp putItem ev Hid)).
      discriminate.
  - rewrite (proj2 (no_winner_throws timestamp putItem ev Hw)). discriminate.
Qed.

(** A record that counts no successful path names no winner. *)
Lemma zero_successful_no_winner timestamp ev :
  successfulPaths (recordOf timestamp ev) = 0%nat ->
  winningPath (recordOf timestamp ev) = None.
Proof.
  intros Hzero. unfold recordOf in *. simpl in *.
  rewrite no_success_no_winner; [reflexivity|].
  intros j q Hq. exfalso.
  set (rs := match results ev with Some rs => rs | None => [] end) in *.
  assert (In (Some {| Payload := Some (Parsed q) |})
            (List.filter hasPayload rs)) as Hin.
  { apply filter_In. split; [|reflexivity].
    apply list_elem_of_In. eapply list_elem_of_lookup_2, Hq. }
  destruct (List.filter hasPayload rs); [destruct Hin|discriminate].
Qed.

(** C8, the failing input: a race whose only path answers with status
    500.  The measurement has no winner, so its record lacks
    [winningPath] and [latency] and cannot be marshalled: the measurement
    throws before anything is sent, whatever the table would do with a
    write, and the handler throws in turn.  No result tagged decoherent
    is produced. *)
Theorem failed_race_throws :
  winnerOf 1000 Examples.failedRace = None /\
  winningPath (recordOf 1000 Examples.failedRace) = None /\
  recordLatency (recordOf 1000 Examples.failedRace) = None /\
  marshall (recordOf 1000 Examples.failedRace) = Throws /\
  (forall putItem,
      performQuantumMeasurement 1000 putItem Examples.failedRace
      = ([], Throws)) /\
  (forall putItem,
      handler 1000 putItem
        {| action := "measure"; input := None; requestStartTime := None;
           measured := Examples.failedRace |}
      = ([], Throws)) /\
  (forall putItem n k,
      snd (performQuantumMeasurement 1000 putItem Examples.failedRace)
      <> Returns (Decoherent n k)).
Proof.
  repeat split; try reflexivity. intros putItem n k. discriminate.
Qed.

End SuperpositionProofs.

(* ===================================================================== *)
(** * The hedge orchestrator *)
(* ===================================================================== *)

Module HedgeProofs.
Import Hedge.

(** ** The sorted window *)

Lemma insertAsc_perm x l : Permutation (insertAsc x l) (x :: l).
Proof.
  induction l as [|y rest IH]; simpl; [reflexivity|].
  destruct (x <=? y); [reflexivity|].
  rewrite IH. apply perm_swap.
Qed.

Lemma sortAsc_perm l : Permutation (sortAsc l) l.
Proof.
  induction l as [|x rest IH]; simpl; [reflexivity|].
  rewrite insertAsc_perm. constructor. exact IH.
Qed.

Lemma insertAsc_sorted x l :
  StronglySorted Z.le l -> StronglySorted Z.le (insertAsc x l).
Proof.
  induction 1 as [|y rest Hrest IH Hy]; simpl.
  - repeat constructor.
  - destruct (x <=? y) eqn:E.
    + apply Z.leb_le in E. constructor.
      * constructor; assumption.
      * constructor; [exact E|].
        eapply Forall_impl; [exact Hy|]. intros z Hz. simpl in Hz. lia.
    + apply Z.leb_gt in E. constructor; [exact IH|].
      eapply Permutation_Forall; [symmetry; apply insertAsc_perm|].
      constructor; [lia|exact Hy].
Qed.

Lemma sortAsc_sorted l : StronglySorted Z.le (sortAsc l).
Proof.
  induction l as [|x rest IH]; simpl; [constructor|].
  apply insertAsc_sorted, IH.
Qed.

Lemma sortAsc_length l : length (sortAsc l) = length l.
Proof. apply Permutation_length, sortAsc_perm. Qed.

(** ** The nearest-rank index *)

(** [Math.ceil((percentile / 100) * n)] in integers. *)
Lemma percentileIndex_ceiling percentile n :
  percentileIndex percentile n
  = (percentile * Z.of_nat n + 99) / 100 - 1.
Proof.
  unfold percentileIndex, Qceiling, Qfloor. simpl.
  rewrite !Z.mul_1_r. f_equal.
  generalize (percentile * Z.of_nat n). intros a.
  Z.div_mod_to_equations. lia.
Qed.

Lemma percentileIndex_in_range percentile n :
  0 <= percentile <= 100 -> (0 < n)%nat ->
  0 <= Z.max 0 (percentileIndex percentile n) < Z.of_nat n.
Proof.
  intros Hp Hn. rewrite percentileIndex_ceiling.
  assert ((percentile * Z.of_nat n + 99) / 100 <= Z.of_nat n).
  { assert (percentile * Z.of_nat n <= 100 * Z.of_nat n) by nia.
    Z.div_mod_to_equations. lia. }
  lia.
Qed.

(** ** The windowed statistics in integers *)

Lemma ratio_gt_iff (a n c d : Z) :
  0 < n -> 0 < d ->
  ((c # Z.to_pos d) < inject_Z a / inject_Z n)%Q <-> c * n < a * d.
Proof.
  intros Hn Hd. destruct n as [|pn|pn]; try lia.
  destruct d as [|pd|pd]; try lia.
  unfold Qlt, Qdiv, Qmult, Qinv, inject_Z. simpl. lia.
Qed.

Lemma errorRate_high_iff (metrics : list metric) :
  metrics <> [] ->
  ((5 # 100) < calculateErrorRate metrics)%Q <->
  5 * Z.of_nat (length metrics)
  < 100 * Z.of_nat (length (List.filter isFailure metrics)).
Proof.
  intros Hne. destruct metrics as [|m0 rest]; [congruence|].
  unfold calculateErrorRate.
  rewrite (ratio_gt_iff _ _ 5 100) by (simpl length; lia). lia.
Qed.

Lemma averageLatency_high_iff (metrics : list metric) (T : Z) :
  metrics <> [] ->
  (inject_Z T < calculateAverageLatency metrics)%Q <->
  T * Z.of_nat (length metrics) < sumLatency metrics.
Proof.
  intros Hne. destruct metrics as [|m0 rest]; [congruence|].
  unfold calculateAverageLatency.
  change (inject_Z T) with (T # Z.to_pos 1)%Q.
  rewrite ratio_gt_iff by (simpl length; lia). lia.
Qed.

(** The sum that [reduce] accumulates is the sum of the latencies that
    the observations carry, a missing one counting 0. *)
Lemma sumLatency_fields (metrics : list metric) :
  sumLatency metrics
  = fold_right Z.add 0
      (map (fun m => match latency m with Some l => l | None => 0 end)
         metrics).
Proof.
  unfold sumLatency.
  assert (forall acc,
             fold_left (fun a m => a + latencyOf m) metrics acc
             = acc + fold_right Z.add 0
                       (map (fun m => match latency m with
                                      | Some l => l
                                      | None => 0
                                      end) metrics)) as H.
  { induction metrics as [|m rest IH]; intros acc; simpl; [lia|].
    rewrite IH. unfold latencyOf. lia. }
  rewrite H. lia.
Qed.

Lemma isFailure_fields (metrics : list metric) :
  List.filter isFailure metrics
  = List.filter (fun m => match success m with
                          | Some false => true
                          | _ => false
                          end) metrics.
Proof. reflexivity. Qed.

Lemma isHighValueRequest_eqb (ev : event) :
  isHighValueRequest ev
  = match priority ev with
    | Some p =>
        if String.eqb p "high" then true
        else match userId ev with
             | Some u => String.prefix "premium-" u
             | None => false
             end
    | None =>
        match userId ev with
        | Some u => String.prefix "premium-" u
        | None => false
        end
    end.
Proof.
  unfold isHighValueRequest.
  destruct (priority ev) as [p|]; [|reflexivity].
  do 4 (destruct p as [|[[] [] [] [] [] [] [] []] p]; try reflexivity).
  destruct p; reflexivity.
Qed.

Lemma isHighValueRequest_fields (ev : event) :
  isHighValueRequest ev = true <->
  priority ev = Some "high"%string \/
  exists u, userId ev = Some u /\ String.prefix "premium-" u = true.
Proof.
  rewrite isHighValueRequest_eqb. split.
  - intros H. destruct (priority ev) as [p|].
    + destruct (String.eqb p "high") eqn:E.
      * apply String.eqb_eq in E. subst p. left. reflexivity.
      * right. destruct (userId ev) as [u|]; [|discriminate].
        exists u. auto.
    + right. destruct (userId ev) as [u|]; [|discriminate].
      exists u. auto.
  - intros [->|(u & -> & Hu)]; [reflexivity|].
    rewrite Hu. destruct (priority ev) as [p|]; [|reflexivity].
    destruct (String.eqb p "high"); reflexivity.
Qed.

(** C5. Over a window of observations the decision computes
    averageLatency (0 for an empty window, else the sum of the observed
    latencies divided by n), the p95 latency by nearest rank over the
    sorted window (the element at index ceil(95/100 * n) - 1, clamped to
    >= 0, which lies inside the window) and errorRate (0 for an empty
    window, else the number of observations whose success flag is false,
    divided by n), and applies the rules in order, the first match
    deciding: errorRate > 5% and then p95 > 2 * threshold give
    IMMEDIATE_HEDGE, then averageLatency > threshold gives DELAYED_HEDGE,
    then speculative-enabled and high-value (priority 'high' or a user id
    that starts with 'premium-') gives SPECULATIVE, otherwise
    PRIMARY_ONLY. *)
Theorem strategy_decision (cfg : config) (metrics : list metric) (ev : event) :
  let n := Z.of_nat (length metrics) in
  let latencies :=
    map (fun m => match latency m with Some l => l | None => 0 end) metrics in
  let sum := fold_right Z.add 0 latencies in
  let failed :=
    Z.of_nat (length (List.filter
                        (fun m => match success m with
                                  | Some false => true
                                  | _ => false
                                  end) metrics)) in
  let highValue :=
    priority ev = Some "high"%string \/
    exists u, userId ev = Some u /\ String.prefix "premium-" u = true in
  let avgLatency := calculateAverageLatency metrics in
  let p95Latency := calculatePercentileLatency metrics 95 in
  let errorRate := calculateErrorRate metrics in
  let T := hedgeThresholdMs cfg in
  let s := decide_strategy cfg metrics ev in
  (* the statistics *)
  (metrics = [] ->
   avgLatency = 0%Q /\ p95Latency = Some 0 /\ errorRate = 0%Q) /\
  (metrics <> [] ->
   avgLatency = (inject_Z sum / inject_Z n)%Q /\
   errorRate = (inject_Z failed / inject_Z n)%Q /\
   ((5 # 100 < errorRate)%Q <-> 5 * n < 100 * failed) /\
   ((inject_Z T < avgLatency)%Q <-> T * n < sum) /\
   exists sorted index v,
     Permutation sorted latencies /\
     StronglySorted Z.le sorted /\
     index = Qceiling ((inject_Z 95 / 100) * inject_Z n)%Q - 1 /\
     index = (95 * n + 99) / 100 - 1 /\
     0 <= Z.max 0 index < n /\
     sorted !! Z.to_nat (Z.max 0 index) = Some v /\
     p95Latency = Some v) /\
  (* the rules, in order *)
  ((5 # 100 < errorRate)%Q ->
   s = {| type := IMMEDIATE_HEDGE; reason := "High error rate detected" |}) /\
  (~ (5 # 100 < errorRate)%Q ->
   (exists v, p95Latency = Some v /\ T * 2 < v) ->
   s = {| type := IMMEDIATE_HEDGE; reason := "High P95 latency" |}) /\
  (~ (5 # 100 < errorRate)%Q ->
   ~ (exists v, p95Latency = Some v /\ T * 2 < v) ->
   (inject_Z T < avgLatency)%Q ->
   s = {| type := DELAYED_HEDGE;
          reason := "Average latency above threshold" |}) /\
  (~ (5 # 100 < errorRate)%Q ->
   ~ (exists v, p95Latency = Some v /\ T * 2 < v) ->
   ~ (inject_Z T < avgLatency)%Q ->
   enableSpeculative cfg = true -> highValue ->
   s = {| type := SPECULATIVE;
          reason := "High value request optimization" |}) /\
  (~ (5 # 100 < errorRate)%Q ->
   ~ (exists v, p95Latency = Some v /\ T * 2 < v) ->
   ~ (inject_Z T < avgLatency)%Q ->
   ~ (enableSpeculative cfg = true /\ highValue) ->
   s = {| type := PRIMARY_ONLY;
          reason := "Normal performance conditions" |}).
Proof.
  intros n latencies sum failed highValue avgLatency p95Latency errorRate T s.
  assert (JS.Qgtb errorRate (5 # 100) = true <-> (5 # 100 < errorRate)%Q)
    as Herr by apply JSFacts.Qgtb_true.
  assert (JS.Qgtb avgLatency (inject_Z T) = true
          <-> (inject_Z T < avgLatency)%Q)
    as Havg by apply JSFacts.Qgtb_true.
  assert (exceeds p95Latency (T * 2) = true
          <-> exists v, p95Latency = Some v /\ T * 2 < v) as Hp95.
  { unfold exceeds. destruct p95Latency as [v|].
    - rewrite Z.ltb_lt. split.
      + intros H. exists v. auto.
      + intros (v' & [= <-] & H). exact H.
    - split; [discriminate|]. intros (v & [=] & _). }
  assert (sumLatency metrics = sum) as Hsum by apply sumLatency_fields.
  assert (map latencyOf metrics = latencies) as Hlat by reflexivity.
  assert (Z.of_nat (length (List.filter isFailure metrics)) = failed)
    as Hfailed by reflexivity.
  split; [|split].
  - intros ->. repeat split; reflexivity.
  - intros Hne.
    split; [|split; [|split; [|split]]].
    + subst avgLatency n. rewrite <- Hsum.
      destruct metrics; [congruence|reflexivity].
    + subst errorRate n. rewrite <- Hfailed.
      destruct metrics; [congruence|reflexivity].
    + rewrite <- Hfailed. apply errorRate_high_iff, Hne.
    + rewrite <- Hsum. apply averageLatency_high_iff, Hne.
    + assert (0 <= Z.max 0 (percentileIndex 95 (length metrics)) < n)
        as Hrange.
      { apply percentileIndex_in_range; [lia|].
        destruct metrics; [congruence|simpl; lia]. }
      assert (p95Latency
              = sortAsc latencies
                  !! Z.to_nat (Z.max 0 (percentileIndex 95 (length metrics))))
        as Hp.
      { subst p95Latency. unfold calculatePercentileLatency.
        destruct metrics as [|m0 rest]; [congruence|].
        rewrite sortAsc_length, length_map. reflexivity. }
      assert (is_Some (sortAsc latencies
                  !! Z.to_nat (Z.max 0 (percentileIndex 95 (length metrics)))))
        as [v Hv].
      { apply lookup_lt_is_Some.
        subst latencies. rewrite sortAsc_length, length_map. subst n. lia. }
      exists (sortAsc latencies), (percentileIndex 95 (length metrics)), v.
      split; [apply sortAsc_perm|].
      split; [apply sortAsc_sorted|].
      split; [reflexivity|].
      split; [apply percentileIndex_ceiling|].
      split; [exact Hrange|].
      split; [exact Hv|].
      rewrite Hp. exact Hv.
  - subst s. unfold decide_strategy.
    fold avgLatency p95Latency errorRate T.
    destruct (JS.Qgtb errorRate (5 # 100)) eqn:E1.
    { repeat split; try reflexivity; intros Hn; exfalso; apply Hn, Herr;
        reflexivity. }
    assert (~ (5 # 100 < errorRate)%Q) as N1
      by (intros H; apply Herr in H; discriminate).
    split; [intros H; contradiction|].
    destruct (exceeds p95Latency (T * 2)) eqn:E2.
    { repeat split; try reflexivity; intros _ Hn; exfalso; apply Hn, Hp95;
        reflexivity. }
    assert (~ exists v, p95Latency = Some v /\ T * 2 < v) as N2
      by (intros H; apply Hp95 in H; discriminate).
    split; [intros _ H; contradiction|].
    destruct (JS.Qgtb avgLatency (inject_Z T)) eqn:E3.
    { repeat split; try reflexivity; intros _ _ Hn; exfalso; apply Hn, Havg;
        reflexivity. }
    assert (~ (inject_Z T < avgLatency)%Q) as N3
      by (intros H; apply Havg in H; discriminate).
    split; [intros _ _ H; contradiction|].
    pose proof (isHighValueRequest_fields ev) as Hhigh. fold highValue in Hhigh.
    destruct (enableSpeculative cfg) eqn:E4;
      destruct (isHighValueRequest ev) eqn:E5; simpl.
    + split; [reflexivity|]. intros _ _ _ Hn. exfalso. apply Hn.
      split; [reflexivity|]. apply Hhigh. reflexivity.
    + split; [|reflexivity]. intros _ _ _ _ Hv. apply Hhigh in Hv.
      discriminate.
    + split; [|reflexivity]. intros _ _ _ H. discriminate.
    + split; [|reflexivity]. intros _ _ _ H. discriminate.
Qed.

Lemma strategy_decision_witness :
  Examples.window <> [] /\
  (calculateAverageLatency Examples.window == 150)%Q /\
  calculatePercentileLatency Examples.window 95 = Some 300 /\
  (calculateErrorRate Examples.window == 1 # 4)%Q /\
  (5 # 100 < calculateErrorRate Examples.window)%Q /\
  decide_strategy Examples.hedgeConfig Examples.window Examples.plainEvent
  = {| type := IMMEDIATE_HEDGE; reason := "High error rate detected" |}.
Proof.
  assert (Examples.window <> []) as Hne by discriminate.
  assert (5 # 100 < calculateErrorRate Examples.window)%Q as Herr
    by reflexivity.
  pose proof (strategy_decision Examples.hedgeConfig Examples.window
                Examples.plainEvent) as H.
  cbv zeta in H. destruct H as (_ & Hstats & Hrule & _).
  destruct (Hstats Hne) as (Havg & Hrate & _ & _ & sorted & index & v
                            & Hperm & Hsorted & _ & Hindex & _ & Hv & Hp95).
  split; [exact Hne|].
  split; [rewrite Havg; reflexivity|].
  split; [reflexivity|].
  split; [rewrite Hrate; reflexivity|].
  split; [exact Herr|].
  exact (Hrule Herr).
Defined.

(** ** The metrics store *)

(** C9. When the query of the metrics store throws, the strategy decision
    receives the empty window, for which errorRate and averageLatency are
    0, and decides as usual; the handler settles exactly as it does with
    an empty window and sends the same writes, and the only trace of the
    failure is one warning in the log. *)
Theorem query_failure_degrades_to_empty_window
    (cfg : config) (world : string -> behaviour) (st : store)
    (freshId : string) (startTime : Z) (ev : event) :
  query st = QueryThrows ->
  let st' := {| query := QueryAnswer (Some []); queryMs := queryMs st;
                putItem := putItem st |} in
  let warning := ConsoleWarn "Failed to get recent metrics:" in
  getRecentMetrics (query st) = ([], [warning]) /\
  calculateErrorRate (fst (getRecentMetrics (query st))) = 0%Q /\
  calculateAverageLatency (fst (getRecentMetrics (query st))) = 0%Q /\
  determineExecutionStrategy cfg (query st) ev
    = (decide_strategy cfg [] ev, [warning]) /\
  settled (handler cfg world st freshId startTime ev)
    = settled (handler cfg world st' freshId startTime ev) /\
  writes (handler cfg world st freshId startTime ev)
    = writes (handler cfg world st' freshId startTime ev) /\
  console (handler cfg world st freshId startTime ev)
    = warning :: console (handler cfg world st' freshId startTime ev).
Proof.
  intros Hq st' warning. unfold handler, determineExecutionStrategy.
  rewrite Hq. simpl.
  do 4 (split; [reflexivity|]).
  destruct (startedAt (queryMs st) _) as [t out|t e|]; simpl;
    repeat split; reflexivity.
Qed.

Lemma query_failure_degrades_to_empty_window_witness :
  query Examples.unavailableStore = QueryThrows /\
  settled (handler Examples.hedgeConfig Examples.everyoneAnswers
             Examples.unavailableStore "req-0" 1000 Examples.plainEvent)
  = settled (handler Examples.hedgeConfig Examples.everyoneAnswers
               Examples.emptyStore "req-0" 1000 Examples.plainEvent).
Proof.
  split; [reflexivity|].
  exact (proj1 (proj2 (proj2 (proj2 (proj2
    (query_failure_degrades_to_empty_window Examples.hedgeConfig
       Examples.everyoneAnswers Examples.unavailableStore "req-0" 1000
       Examples.plainEvent eq_refl)))))).
Defined.

(** ** The metrics write *)



(** ** Immediate hedge *)

(** C2, the failing input: the primary throws after 10 ms and the backup
    would answer after 80 ms; the race settles with the primary's
    rejection and the request fails. *)
Theorem immediate_hedge_fails_on_first_rejection :
  invokeFunctionWithTimeout Examples.primaryFailsBackupAnswers
    "backup-fn" (hedgeThresholdMs Examples.hedgeConfig * 2)
  = Fulfilled 80 Examples.backupAnswer /\
  executeImmediateHedgedRequest Examples.hedgeConfig
    Examples.primaryFailsBackupAnswers "req-1"
  = Rejected 10 (AllHedgedFailed (Some "undefined")).
Proof.
  split; reflexivity.
Qed.

(** ** Delayed hedge *)

(** C3, the failing input: the primary throws after 10 ms, the timer
    fires at 100 ms and starts the backup, which throws at 120 ms; the
    returned promise is never settled. *)
Theorem delayed_hedge_hangs_when_all_fail :
  invokeFunctionWithTimeout Examples.everyoneFails "primary-fn"
    (hedgeThresholdMs Examples.hedgeConfig * 3)
  = Rejected 10 InvocationError /\
  invokeFunctionWithTimeout Examples.everyoneFails "backup-fn"
    (hedgeThresholdMs Examples.hedgeConfig)
  = Rejected 20 InvocationError /\
  executeDelayedHedgedRequest Examples.hedgeConfig Examples.everyoneFails
    "req-1" = Pending /\
  settled (handler Examples.hedgeConfig Examples.everyoneFails
             Examples.slowStore "req-0" 1000 Examples.plainEvent)
  = Pending.
Proof.
  repeat split; reflexivity.
Qed.

(** ** The race of the immediate hedge, in general *)

Lemma Promise_race_in (ps : list raced) :
  Promise_race ps = Never \/ In (Promise_race ps) ps.
Proof.
  induction ps as [|p rest IH]; simpl; [left; reflexivity|].
  destruct (settlesFirst p (Promise_race rest)); [right; left; reflexivity|].
  destruct (settlesAt (Promise_race rest)) eqn:E.
  - destruct IH as [IH|IH]; [rewrite IH in E; discriminate|].
    right. right. exact IH.
  - right. left. reflexivity.
Qed.

Lemma in_imap_wrap (f : nat -> nat) (ps : list (promise response)) r :
  In r (imap (fun i => wrap (f i)) ps) ->
  exists i p, In p ps /\ r = wrap i p.
Proof.
  revert f. induction ps as [|p rest IH]; intros f Hin; simpl in Hin.
  - destruct Hin.
  - destruct Hin as [<-|Hin].
    + exists (f 0%nat), p. split; [left; reflexivity|reflexivity].
    + apply (IH (fun i => f (S i))) in Hin as (i & q & Hq & ->).
      exists i, q. split; [right; exact Hq|reflexivity].
Qed.

(** A rejection of the primary that comes no later than any backup's
    answer fails the whole request, whatever the backups answer. *)
Lemma immediate_hedge_primary_rejection_wins cfg world rid tp e :
  invokeFunctionWithTimeout world (primaryFunctionName cfg)
    (hedgeThresholdMs cfg * 2) = Rejected tp e ->
  (forall name,
      In name (take (maxHedgedRequests cfg) (backupFunctionNames cfg)) ->
      tp <= settleTime (invokeFunctionWithTimeout world name
                          (hedgeThresholdMs cfg * 2))) ->
  executeImmediateHedgedRequest cfg world rid
  = Rejected tp (AllHedgedFailed (Some "undefined")).
Proof.
  intros Hprimary Hlater. unfold executeImmediateHedgedRequest.
  rewrite Hprimary. cbn [imap wrap Promise_race sourceOf].
  set (rest := imap _ _).
  assert (settlesFirst (Lost tp e primary) (Promise_race rest) = true)
    as Hfirst.
  { destruct (Promise_race_in rest) as [Hnever|Hin].
    - rewrite Hnever. reflexivity.
    - apply (in_imap_wrap S) in Hin as (i & p & Hp & Hr).
      rewrite Hr. apply in_map_iff in Hp as (name & <- & Hname).
      specialize (Hlater name Hname).
      destruct (invokeFunctionWithTimeout world name _) as [t r|t e'|];
        simpl in *; [apply Z.leb_le; exact Hlater..|reflexivity]. }
  rewrite Hfirst. reflexivity.
Qed.

(** ** The delayed hedge, in general *)

Lemma no_resolve_of_rejected (call : nat -> promise response -> option (Z * call))
    (hedges : list (promise response)) :
  Forall rejected hedges ->
  (forall i t e, call i (Rejected t e) = None) ->
  omap (fun x => x) (imap call hedges) = [].
Proof.
  intros Hrej. revert call.
  induction Hrej as [|p rest (t & e & ->) Hrest IH]; intros call Hcall;
    [reflexivity|].
  simpl. rewrite Hcall. apply IH. intros i t' e'. apply Hcall.
Qed.

Lemma no_error_among_hedges (hedges : list (promise response)) :
  List.filter isError (map (fun _ => NotAnError) hedges) = [].
Proof. induction hedges; simpl; auto. Qed.

(** Once a backup has been started, the delayed hedge cannot fail: if the
    primary and all the backups fail, its promise is never settled. *)
Lemma delayed_hedge_never_settles cfg world rid :
  (1 <= maxHedgedRequests cfg)%nat ->
  backupFunctionNames cfg <> [] ->
  rejected (invokeFunctionWithTimeout world (primaryFunctionName cfg)
              (hedgeThresholdMs cfg * 3)) ->
  (forall name,
      In name (backupFunctionNames cfg) ->
      rejected (invokeFunctionWithTimeout world name (hedgeThresholdMs cfg))) ->
  executeDelayedHedgedRequest cfg world rid = Pending.
Proof.
  intros Hmax Hbackups (tp & ep & Hprimary) Hfail.
  unfold executeDelayedHedgedRequest. rewrite Hprimary. cbv zeta.
  set (hedges := map _ _).
  assert (Forall rejected hedges) as Hrej.
  { apply Forall_forall. intros p Hp. apply list_elem_of_In in Hp.
    apply in_map_iff in Hp as (name & <- & Hname).
    destruct (Hfail name) as (t & e & ->).
    - apply list_elem_of_In. eapply subseteq_take.
      apply list_elem_of_In. exact Hname.
    - eexists _, _. reflexivity. }
  assert (hedges <> []) as Hne.
  { unfold hedges. destruct (backupFunctionNames cfg) as [|b bs];
      [congruence|].
    destruct (maxHedgedRequests cfg); [lia|]. discriminate. }
  rewrite no_resolve_of_rejected; [|exact Hrej|reflexivity].
  simpl. rewrite no_error_among_hedges. simpl.
  destruct hedges; [congruence|]. reflexivity.
Qed.

(** A primary that fails before the timer does not stop the backups: the
    first backup to answer resolves the request. *)
Lemma delayed_hedge_backup_answers :
  executeDelayedHedgedRequest Examples.hedgeConfig
    Examples.primaryFailsBackupAnswers "req-1"
  = Fulfilled 180
      {| payload := Examples.backupAnswer;
         metadata :=
           {| mdStrategy := DELAYED_HEDGE; winner := Some (backup 0);
              hedgesTriggered := Some 2%nat; speculativeExecutions := None;
              mdRequestId := "req-1" |} |}.
Proof. reflexivity. Qed.

End HedgeProofs.

(* ===================================================================== *)
(** * Further properties of the router *)
(* ===================================================================== *)

Module GateProperties.
Import Gate.

(** ** The table of path statistics *)

Lemma totalSamples_insert_fresh (pathStats : gmap string stats) nm s :
  pathStats !! nm = None ->
  totalSamples (<[nm := s]> pathStats) = totalSamples pathStats + totalCount s.
Proof.
  intros Hnone. unfold totalSamples.
  rewrite map_fold_insert_L; [reflexivity| |exact Hnone].
  intros j1 j2 z1 z2 y _ _ _. lia.
Qed.

(** An update adds one sample, except under an inherited name, where
    the table keeps its entries. *)
Lemma totalSamples_update fl nm latency success
    (pathStats : gmap string stats) :
  totalSamples (updatePathStats fl nm latency success pathStats)
  = if match pathStats !! nm with Some _ => false | None => inherited nm end
    then totalSamples pathStats
    else totalSamples pathStats + 1.
Proof.
  destruct (GateProofs.updatePathStats_cases fl nm latency success pathStats)
    as [(_ & E & I & ->)|[(I & E & ->)|(s0 & E & ->)]]; rewrite E.
  - rewrite I. reflexivity.
  - rewrite I. rewrite totalSamples_insert_fresh by exact E. simpl. lia.
  - rewrite <- insert_delete_eq.
    rewrite totalSamples_insert_fresh by apply lookup_delete_eq.
    rewrite <- (insert_delete_id pathStats nm s0 E) at 2.
    rewrite totalSamples_insert_fresh by apply lookup_delete_eq.
    simpl. lia.
Qed.

(** The selector only returns configured paths. *)
Lemma select_member fl pow cfg (pathStats : gmap string stats) g p :
  fst (selectExecutionPath fl pow cfg pathStats g) = Some p ->
  In p (executionPaths cfg).
Proof.
  intros Hsel. unfold selectExecutionPath in Hsel.
  destruct (enableAdaptiveRouting cfg && hasEnoughSamples cfg pathStats).
  - unfold thompsonSampling in Hsel.
    pose proof (GateProofs.thompsonLoop_best pow pathStats
                  (executionPaths cfg) g (executionPaths cfg) [] None
                  JS.NInf eq_refl) as Hloop.
    simpl in Hloop.
    destruct g as [d c].
    change (skip 0 {| draws := d; cursor := c |})
      with {| draws := d; cursor := c |} in Hloop.
    destruct (thompsonLoop pow pathStats (executionPaths cfg) None JS.NInf _)
      as [[bestPath bestSample] g'].
    simpl in Hloop.
    destruct bestPath as [w|]; simpl in Hsel.
    + injection Hsel as ->.
      destruct Hloop as (i & _ & Hw & _).
      { split; [reflexivity|]. intros j Hj. lia. }
      apply list_elem_of_In. eapply list_elem_of_lookup_2, Hw.
    + destruct (executionPaths cfg) as [|q rest]; [discriminate|].
      injection Hsel as ->. left. reflexivity.
  - rewrite GateProofs.weightedRandomSelection_fst in Hsel.
    destruct (weightedLoop fl _ (executionPaths cfg)) as [q|] eqn:E.
    + injection Hsel as ->.
      apply GateProofs.weightedLoop_Some in E as (pre & post & -> & _).
      apply in_or_app. right. left. reflexivity.
    + destruct (executionPaths cfg) as [|q rest]; [discriminate|].
      injection Hsel as ->. left. reflexivity.
Qed.

(** With at least one configured path the selector returns one. *)
Lemma select_some fl pow cfg (pathStats : gmap string stats) g :
  executionPaths cfg <> [] ->
  fst (selectExecutionPath fl pow cfg pathStats g) <> None.
Proof.
  intros Hne. unfold selectExecutionPath.
  destruct (enableAdaptiveRouting cfg && hasEnoughSamples cfg pathStats).
  - unfold thompsonSampling.
    destruct (thompsonLoop pow pathStats (executionPaths cfg) None JS.NInf g)
      as [[[w|] bestSample] g']; simpl; [discriminate|].
    destruct (executionPaths cfg); [congruence|discriminate].
  - rewrite GateProofs.weightedRandomSelection_fst.
    destruct (weightedLoop fl _ (executionPaths cfg)); [discriminate|].
    destruct (executionPaths cfg); [congruence|discriminate].
Qed.

(** The handler leaves the table alone or updates the selected path. *)
Lemma handler_table fl pow cfg invoke (pathStats : gmap string stats) g :
  let st' := snd (handler fl pow cfg invoke (pathStats, g)) in
  fst st' = pathStats \/
  exists p latency,
    In p (executionPaths cfg) /\
    fst st' = updatePathStats fl (name p) latency true pathStats.
Proof.
  destruct (GateProofs.handler_stats fl pow cfg invoke pathStats g)
    as [Heq|(p & latency & parsed & Hsel & _ & Heq)]; [left; exact Heq|].
  right. exists p, latency. split; [|exact Heq].
  eapply select_member, Hsel.
Qed.

(** X1. In every state that the router's table can reach, every entry
    belongs to a configured path, whose name is not one that the table
    inherits, counts at least one invocation, and its avgLatency is the
    double that the division of its totalLatency by its totalCount
    returns. *)
Theorem reachable_entries_are_means
    (fl : Q -> Q) (pow : Q -> Q -> Q) (cfg : config)
    (st : gmap string stats * rng) :
  reachable fl pow cfg st ->
  forall nm s,
    fst st !! nm = Some s ->
    (exists p, In p (executionPaths cfg) /\ name p = nm) /\
    inherited nm = false /\
    1 <= totalCount s /\
    avgLatency s
    = fl (inject_Z (totalLatency s) / inject_Z (totalCount s))%Q.
Proof.
  induction 1 as [g|[pathStats g] invoke Hreach IH]; intros nm s Hs.
  - simpl in Hs. rewrite lookup_empty in Hs. discriminate.
  - simpl in IH.
    destruct (handler_table fl pow cfg invoke pathStats g)
      as [Heq|(p & latency & Hp & Heq)]; rewrite Heq in Hs.
    + apply IH, Hs.
    + destruct (GateProofs.updatePathStats_cases fl (name p) latency true
                  pathStats)
        as [(_ & _ & _ & Hu)|[(I & E & Hu)|(s0 & E & Hu)]];
        rewrite Hu in Hs.
      * apply IH, Hs.
      * destruct (decide (name p = nm)) as [<-|Hne].
        -- rewrite lookup_insert_eq in Hs. injection Hs as <-. simpl.
           split; [exists p; auto|]. split; [exact I|].
           split; [lia|reflexivity].
        -- rewrite lookup_insert_ne in Hs by exact Hne. apply IH, Hs.
      * destruct (decide (name p = nm)) as [<-|Hne].
        -- rewrite lookup_insert_eq in Hs. injection Hs as <-. simpl.
           destruct (IH _ _ E) as (_ & I & Hcount & _).
           split; [exists p; auto|]. split; [exact I|].
           split; [lia|reflexivity].
        -- rewrite lookup_insert_ne in Hs by exact Hne. apply IH, Hs.
Qed.

Lemma reachable_entries_are_means_witness :
  reachable Float64.round Examples.firstPower Examples.gateConfig
    Examples.afterOneRequest /\
  forall nm s,
    fst Examples.afterOneRequest !! nm = Some s -> 1 <= totalCount s.
Proof.
  assert (reachable Float64.round Examples.firstPower Examples.gateConfig
            Examples.afterOneRequest) as Hreach
    by (apply reach_step, reach_init).
  split; [exact Hreach|].
  intros nm s Hs.
  exact (proj1 (proj2 (proj2
    (reachable_entries_are_means _ _ _ _ Hreach nm s Hs)))).
Defined.

(** X2. A run of the handler adds at most one sample to the table and
    never removes one; so once the table holds enough samples for
    adaptive routing, it still does after every further request. *)
Theorem enough_samples_is_stable
    (fl : Q -> Q) (pow : Q -> Q -> Q) (cfg : config)
    (invoke : string -> invocation) (st : gmap string stats * rng) :
  let st' := snd (handler fl pow cfg invoke st) in
  (totalSamples (fst st') = totalSamples (fst st) \/
   totalSamples (fst st') = totalSamples (fst st) + 1) /\
  (hasEnoughSamples cfg (fst st) = true ->
   hasEnoughSamples cfg (fst st') = true).
Proof.
  destruct st as [pathStats g]. intros st'.
  assert (totalSamples (fst st') = totalSamples pathStats \/
          totalSamples (fst st') = totalSamples pathStats + 1) as Hstep.
  { destruct (handler_table fl pow cfg invoke pathStats g)
      as [Heq|(p & latency & _ & Heq)]; fold st' in Heq; rewrite Heq.
    - left. reflexivity.
    - rewrite totalSamples_update.
      destruct (match pathStats !! name p with
                | Some _ => false
                | None => inherited (name p)
                end); [left|right]; reflexivity. }
  split; [exact Hstep|].
  unfold hasEnoughSamples. simpl. rewrite !Z.leb_le. lia.
Qed.

Lemma enough_samples_is_stable_witness :
  hasEnoughSamples
    {| executionPaths := executionPaths Examples.gateConfig;
       enableAdaptiveRouting := true; minSampleSize := 1 |}
    (fst Examples.afterOneRequest) = true /\
  hasEnoughSamples
    {| executionPaths := executionPaths Examples.gateConfig;
       enableAdaptiveRouting := true; minSampleSize := 1 |}
    (fst (snd (handler Float64.round Examples.firstPower
                 {| executionPaths := executionPaths Examples.gateConfig;
                    enableAdaptiveRouting := true; minSampleSize := 1 |}
                 Examples.answering Examples.afterOneRequest))) = true.
Proof.
  assert (hasEnoughSamples
            {| executionPaths := executionPaths Examples.gateConfig;
               enableAdaptiveRouting := true; minSampleSize := 1 |}
            (fst Examples.afterOneRequest) = true) as Henough
    by (vm_compute; reflexivity).
  split; [exact Henough|].
  exact (proj2 (enough_samples_is_stable Float64.round Examples.firstPower _
                  Examples.answering Examples.afterOneRequest) Henough).
Defined.

(** ** Selection *)

(** X3. The selector returns a configured path whenever at least one is
    configured, in both modes, and nothing when none is; with no
    configured path the handler answers 500 and records nothing. *)
Theorem selection_is_a_configured_path
    (fl : Q -> Q) (pow : Q -> Q -> Q) (cfg : config)
    (invoke : string -> invocation)
    (pathStats : gmap string stats) (g : rng) :
  (executionPaths cfg <> [] ->
   exists p,
     fst (selectExecutionPath fl pow cfg pathStats g) = Some p /\
     In p (executionPaths cfg)) /\
  (executionPaths cfg = [] ->
   fst (selectExecutionPath fl pow cfg pathStats g) = None /\
   fst (handler fl pow cfg invoke (pathStats, g)) = internalServerError /\
   fst (snd (handler fl pow cfg invoke (pathStats, g))) = pathStats).
Proof.
  split.
  - intros Hne.
    destruct (fst (selectExecutionPath fl pow cfg pathStats g)) as [p|] eqn:E.
    + exists p. split; [reflexivity|]. eapply select_member, E.
    + exfalso. eapply select_some; eauto.
  - intros Hnil.
    assert (fst (selectExecutionPath fl pow cfg pathStats g) = None) as Hsel.
    { destruct (fst (selectExecutionPath fl pow cfg pathStats g)) as [p|] eqn:E;
        [|reflexivity].
      apply select_member in E. rewrite Hnil in E. destruct E. }
    split; [exact Hsel|]. unfold handler.
    destruct (selectExecutionPath fl pow cfg pathStats g) as [sel g'].
    simpl in Hsel. subst sel. split; reflexivity.
Qed.

Lemma selection_is_a_configured_path_witness :
  executionPaths Examples.gateConfig <> [] /\
  exists p,
    fst (selectExecutionPath Float64.round Examples.firstPower
           Examples.gateConfig
           (fst Examples.afterOneRequest) Examples.halves) = Some p /\
    In p (executionPaths Examples.gateConfig).
Proof.
  assert (executionPaths Examples.gateConfig <> []) as Hne by discriminate.
  split; [exact Hne|].
  exact (proj1 (selection_is_a_configured_path Float64.round
                  Examples.firstPower
                  Examples.gateConfig Examples.answering
                  (fst Examples.afterOneRequest) Examples.halves) Hne).
Defined.

(** ** The random draws *)

Lemma thompsonLoop_cursor pow (pathStats : gmap string stats) paths :
  forall bestPath bestSample g,
    let g' := snd (thompsonLoop pow pathStats paths bestPath bestSample g) in
    draws g' = draws g /\
    cursor g' = (cursor g + 2 * length paths)%nat.
Proof.
  induction paths as [|p rest IH]; intros bestPath bestSample g; simpl.
  - split; [reflexivity|lia].
  - destruct (sampleFor pow (statsOf pathStats p) g) as [smp g1] eqn:E.
    assert (g1 = skip 2 g) as ->.
    { rewrite <- (GateProofs.sampleFor_snd pow (statsOf pathStats p) g), E.
      reflexivity. }
    destruct (JS.gt smp bestSample);
      match goal with
      | |- context [thompsonLoop pow pathStats rest ?b ?s ?g0] =>
          destruct (IH b s g0) as [Hd Hc]
      end; simpl in *; rewrite Hd, Hc; (split; [reflexivity|lia]).
Qed.

(** X4. Weighted random selection draws one random number, Thompson
    sampling draws two per configured path; neither touches the stream of
    draws otherwise. *)
Theorem selection_consumes_draws
    (fl : Q -> Q) (pow : Q -> Q -> Q) (paths : list path)
    (pathStats : gmap string stats) (g : rng) :
  let gw := snd (weightedRandomSelection fl paths g) in
  let gt := snd (thompsonSampling pow paths pathStats g) in
  draws gw = draws g /\ cursor gw = S (cursor g) /\
  draws gt = draws g /\ cursor gt = (cursor g + 2 * length paths)%nat.
Proof.
  simpl. split; [|split].
  - unfold weightedRandomSelection, Math_random.
    destruct (weightedLoop fl _ paths); reflexivity.
  - unfold weightedRandomSelection, Math_random.
    destruct (weightedLoop fl _ paths); reflexivity.
  - unfold thompsonSampling.
    pose proof (thompsonLoop_cursor pow pathStats paths None JS.NInf g)
      as Hloop.
    destruct (thompsonLoop pow pathStats paths None JS.NInf g)
      as [[bestPath bestSample] g'].
    simpl in Hloop. destruct bestPath; exact Hloop.
Qed.

(** ** The beta sample *)

(** X5. When both powers are non-negative and not both zero, betaSample
    returns a number between 0 and 1; when both are zero it returns
    NaN. *)
Theorem betaSample_between_0_and_1
    (pow : Q -> Q -> Q) (alpha beta : Z) (g : rng) :
  let x := draws g (cursor g) in
  let y := draws g (S (cursor g)) in
  let px := pow x (1 / inject_Z alpha)%Q in
  let py := pow y (1 / inject_Z beta)%Q in
  (0 <= px)%Q -> (0 <= py)%Q ->
  ((0 < px + py)%Q ->
   exists q, fst (betaSample pow alpha beta g) = JS.Num q /\
             (0 <= q)%Q /\ (q <= 1)%Q) /\
  ((px + py == 0)%Q -> fst (betaSample pow alpha beta g) = JS.NaN).
Proof.
  intros x y px py Hx Hy. unfold betaSample, Math_random. simpl.
  fold x y. fold px py. split.
  - intros Hpos.
    destruct (Qeq_bool (px + py) 0) eqn:E.
    { apply Qeq_bool_iff in E. lra. }
    exists (px / (px + py))%Q. split; [reflexivity|]. split.
    + apply Qle_shift_div_l; [exact Hpos|]. lra.
    + apply Qle_shift_div_r; [exact Hpos|]. lra.
  - intros Hzero.
    assert (Qeq_bool (px + py) 0 = true) as -> by (apply Qeq_bool_iff, Hzero).
    assert (Qeq_bool px 0 = true) as ->
      by (apply Qeq_bool_iff; lra).
    reflexivity.
Qed.

Lemma betaSample_between_0_and_1_witness :
  (0 <= Examples.firstPower (draws Examples.halves 0%nat) (1 / inject_Z 2))%Q /\
  (0 <= Examples.firstPower (draws Examples.halves 1%nat) (1 / inject_Z 2))%Q /\
  exists q,
    fst (betaSample Examples.firstPower 2 2 Examples.halves) = JS.Num q /\
    (0 <= q)%Q /\ (q <= 1)%Q.
Proof.
  assert (0 <= Examples.firstPower (draws Examples.halves 0%nat)
                 (1 / inject_Z 2))%Q as Hx by discriminate.
  assert (0 <= Examples.firstPower (draws Examples.halves 1%nat)
                 (1 / inject_Z 2))%Q as Hy by discriminate.
  split; [exact Hx|]. split; [exact Hy|].
  apply (proj1 (betaSample_between_0_and_1 Examples.firstPower 2 2
                  Examples.halves Hx Hy)).
  reflexivity.
Defined.

(** ** The response *)

(** X6. The handler answers 500 without headers, or it names the selected
    path and the measured latency in its headers; in the second case, and
    also when the payload of a completed invocation does not parse (which
    is answered with 500), that latency has gone through [updatePathStats]
    as a success of that path: the path's entry counts one more
    invocation and that much more latency (an entry is created when the
    path had none), unless the path is named like an inherited member, in
    which case the table is left as it was. *)
Theorem response_and_statistics
    (fl : Q -> Q) (pow : Q -> Q -> Q) (cfg : config)
    (invoke : string -> invocation)
    (pathStats : gmap string stats) (g : rng) :
  let r := fst (handler fl pow cfg invoke (pathStats, g)) in
  let pathStats' := fst (snd (handler fl pow cfg invoke (pathStats, g))) in
  let recorded p latency :=
    match pathStats !! name p with
    | Some s0 =>
        exists s,
          pathStats' = <[name p := s]> pathStats /\
          successCount s = successCount s0 + 1 /\
          totalCount s = totalCount s0 + 1 /\
          totalLatency s = totalLatency s0 + latency
    | None =>
        if inherited (name p) then pathStats' = pathStats
        else
          exists s,
            pathStats' = <[name p := s]> pathStats /\
            successCount s = 1 /\ totalCount s = 1 /\
            totalLatency s = latency
    end in
  (r = internalServerError \/
   exists p latency,
     In p (executionPaths cfg) /\
     quantumPath r = Some (name p) /\ quantumLatency r = Some latency /\
     statusCode r <> 0 /\
     pathStats' = updatePathStats fl (name p) latency true pathStats /\
     recorded p latency) /\
  (forall p latency,
      fst (selectExecutionPath fl pow cfg pathStats g) = Some p ->
      invoke (functionName p) = Returned latency None ->
      r = internalServerError /\
      pathStats' = updatePathStats fl (name p) latency true pathStats /\
      recorded p latency).
Proof.
  assert (forall p latency,
             match pathStats !! name p with
             | Some s0 =>
                 exists s,
                   updatePathStats fl (name p) latency true pathStats
                   = <[name p := s]> pathStats /\
                   successCount s = successCount s0 + 1 /\
                   totalCount s = totalCount s0 + 1 /\
                   totalLatency s = totalLatency s0 + latency
             | None =>
                 if inherited (name p)
                 then updatePathStats fl (name p) latency true pathStats
                      = pathStats
                 else
                   exists s,
                     updatePathStats fl (name p) latency true pathStats
                     = <[name p := s]> pathStats /\
                     successCount s = 1 /\ totalCount s = 1 /\
                     totalLatency s = latency
             end) as Hrec.
  { intros p latency.
    destruct (GateProofs.updatePathStats_cases fl (name p) latency true
                pathStats)
      as [(_ & E & I & Hu)|[(I & E & Hu)|(s0 & E & Hu)]]; rewrite E.
    - rewrite I. exact Hu.
    - rewrite I. eexists. split; [exact Hu|]. simpl. repeat split.
    - eexists. split; [exact Hu|]. simpl. repeat split. }
  simpl. unfold handler.
  destruct (selectExecutionPath fl pow cfg pathStats g) as [sel g'] eqn:Hsel.
  split.
  - destruct sel as [p|]; [|left; reflexivity].
    destruct (invoke (functionName p)) as [latency parsed|];
      [|left; reflexivity].
    destruct parsed as [[code text]|]; [|left; reflexivity].
    right. exists p, latency. simpl.
    split; [eapply select_member; rewrite Hsel; reflexivity|].
    split; [reflexivity|]. split; [reflexivity|].
    split; [|split; [reflexivity|apply Hrec]].
    destruct code as [c|]; [|discriminate].
    destruct (c =? 0) eqn:E; [discriminate|]. apply Z.eqb_neq, E.
  - intros p latency Hp Hinv. simpl in Hp. subst sel. rewrite Hinv.
    simpl. split; [reflexivity|]. split; [reflexivity|apply Hrec].
Qed.

End GateProperties.

(* ===================================================================== *)
(** * Further properties of the race coordinator *)
(* ===================================================================== *)

Module SuperpositionProperties.
Import Superposition.

Lemma parsedAt_has_payload rs j q :
  parsedAt rs j q ->
  In (Some {| Payload := Some (Parsed q) |}) (List.filter hasPayload rs).
Proof.
  intros Hq. apply filter_In. split; [|reflexivity].
  apply list_elem_of_In. eapply list_elem_of_lookup_2, Hq.
Qed.

(** X7. In every measurement record the number of successful paths is at
    most the number of paths; a record that names a winning path names a
    path of the race, counts at least one successful path and carries the
    winner's latency, and a record without winning path carries no
    latency. *)
Theorem measurement_record_is_consistent (timestamp : Z) (ev : event) :
  let r := recordOf timestamp ev in
  (successfulPaths r <= totalPaths r)%nat /\
  (forall i,
      winningPath r = Some i ->
      (i < totalPaths r)%nat /\ (1 <= successfulPaths r)%nat /\
      recordLatency r <> None) /\
  (winningPath r = None -> recordLatency r = None).
Proof.
  unfold recordOf. simpl.
  set (rs := match results ev with Some rs => rs | None => [] end).
  split; [apply filter_length_le|]. split.
  - intros i Hi.
    destruct (winnerOf timestamp ev) as [w|] eqn:Hw; [|discriminate].
    simpl in Hi. injection Hi as <-.
    destruct (SuperpositionProofs.winnerOf_least timestamp ev w Hw)
      as (Hp & _). fold rs in Hp.
    split; [eapply SuperpositionProofs.parsedAt_lt, Hp|].
    split; [|discriminate].
    pose proof (parsedAt_has_payload _ _ _ Hp) as Hin.
    destruct (List.filter hasPayload rs); [destruct Hin|simpl; lia].
  - destruct (winnerOf timestamp ev); [discriminate|reflexivity].
Qed.

Lemma measurement_record_is_consistent_witness :
  winningPath (recordOf 1000 Examples.timedRace) = Some 1%nat /\
  (1 < totalPaths (recordOf 1000 Examples.timedRace))%nat.
Proof.
  assert (winningPath (recordOf 1000 Examples.timedRace) = Some 1%nat)
    as Hw by reflexivity.
  split; [exact Hw|].
  exact (proj1 (proj1 (proj2
    (measurement_record_is_consistent 1000 Examples.timedRace)) 1%nat Hw)).
Defined.

(** ** Collapse *)

(** X8. When the event carries its execution id and its metadata, the
    measurement sends its record and collapses exactly when some path
    answered with a parsed payload of status 200: the record names the
    winner and its latency,
    counted from the start time, and once the record is written the
    measurement returns the winner's payload, that latency and the
    efficiency, which is the quotient of the latency by 100 times the
    number of paths, computed in doubles and printed with two decimals.
    When no path did, the measurement throws and sends nothing.  It never
    returns the decoherent result. *)
Theorem measurement_collapses_or_throws
    (timestamp : Z) (putItem : measurementRecord -> bool) (ev : event)
    (id : string) (m : metadata) :
  executionId ev = Some id ->
  eventMetadata ev = Some m ->
  let rs := match results ev with Some rs => rs | None => [] end in
  let start := match startTime m with Some s => s | None => timestamp end in
  let r := performQuantumMeasurement timestamp putItem ev in
  ((exists j q, parsedAt rs j q /\ isOk q = true) ->
   exists i q rec,
     parsedAt rs i q /\ isOk q = true /\
     fst r = [rec] /\ rec = recordOf timestamp ev /\
     winningPath rec = Some i /\
     recordLatency rec = Some (effectiveTime timestamp q - start) /\
     snd r
     = if putItem rec
       then Returns
              (Collapsed q i (effectiveTime timestamp q - start) (length rs)
                 (Float64.toFixed2
                    (Float64.round
                       (inject_Z (effectiveTime timestamp q - start)
                        / inject_Z (Z.of_nat (length rs) * 100))%Q)))
       else Throws) /\
  ((forall j q, parsedAt rs j q -> isOk q = false) -> r = ([], Throws)) /\
  (forall n k, snd r <> Returns (Decoherent n k)).
Proof.
  intros Hid Hm rs start r. split; [|split].
  - intros (j & q & Hq & Hok).
    pose proof (SuperpositionProofs.winnerOf_scanned timestamp ev m Hm)
      as Hinv. simpl in Hinv. fold rs in Hinv.
    destruct (winnerOf timestamp ev) as [w|] eqn:Hw.
    + destruct (SuperpositionProofs.winner_collapses timestamp putItem ev id
                  w Hid Hw) as [_ Hr].
      fold r rs in Hr.
      unfold winnerOf in Hw. rewrite Hm in Hw. fold rs in Hw.
      unfold scanned in Hinv. rewrite Hw in Hinv.
      destruct Hinv as (_ & _ & Hp & Hokw & Ht & Hl & _).
      fold start in Hl.
      exists (pathId w), (winningPayload w), (recordOf timestamp ev).
      split; [exact Hp|]. split; [exact Hokw|].
      rewrite Hr. split; [reflexivity|]. split; [reflexivity|].
      assert (winnerOf timestamp ev = Some w) as Hw'
        by (unfold winnerOf; rewrite Hm; exact Hw).
      split; [unfold recordOf; simpl; rewrite Hw'; reflexivity|].
      split; [unfold recordOf; simpl; rewrite Hw'; simpl;
              rewrite Hl, Ht; reflexivity|].
      simpl. unfold quantumEfficiencyOf. rewrite Hl, Ht. reflexivity.
    + exfalso.
      eapply (SuperpositionProofs.success_makes_winner timestamp ev m j q);
        eauto.
  - intros Hfail.
    apply (SuperpositionProofs.all_failed_throws timestamp putItem ev).
    exact Hfail.
  - intros n k. apply SuperpositionProofs.never_decoherent.
Qed.

Lemma measurement_collapses_or_throws_witness :
  executionId Examples.timedRace = Some "exec-0"%string /\
  eventMetadata Examples.timedRace = Some {| startTime := Some 0 |} /\
  performQuantumMeasurement 1000 (fun _ => true) Examples.timedRace
  = ([recordOf 1000 Examples.timedRace],
     Returns (Collapsed Examples.timedPayloadB 1 10 2 "0.05")) /\
  forall n k,
    snd (performQuantumMeasurement 1000 (fun _ => true) Examples.timedRace)
    <> Returns (Decoherent n k).
Proof.
  split; [reflexivity|]. split; [reflexivity|]. split; [reflexivity|].
  exact (proj2 (proj2 (measurement_collapses_or_throws 1000 (fun _ => true)
                         Examples.timedRace "exec-0"
                         {| startTime := Some 0 |} eq_refl eq_refl))).
Defined.

(** X9. An event without metadata never has a winner, whatever its
    results: reading the start time throws inside the scan.  Its record
    names no winning path and cannot be marshalled, so the measurement
    throws and sends nothing. *)
Theorem missing_metadata_throws
    (timestamp : Z) (putItem : measurementRecord -> bool) (ev : event) :
  eventMetadata ev = None ->
  winnerOf timestamp ev = None /\
  winningPath (recordOf timestamp ev) = None /\
  recordLatency (recordOf timestamp ev) = None /\
  performQuantumMeasurement timestamp putItem ev = ([], Throws).
Proof.
  intros Hm.
  assert (winnerOf timestamp ev = None) as Hw.
  { unfold winnerOf. rewrite Hm. apply SuperpositionProofs.scan_no_metadata.
    reflexivity. }
  split; [exact Hw|].
  split; [unfold recordOf; simpl; rewrite Hw; reflexivity|].
  split; [unfold recordOf; simpl; rewrite Hw; reflexivity|].
  apply SuperpositionProofs.no_winner_throws, Hw.
Qed.

Lemma missing_metadata_throws_witness :
  eventMetadata Examples.bareRace = None /\
  performQuantumMeasurement 1000 (fun _ => true) Examples.bareRace
  = ([], Throws).
Proof.
  split; [reflexivity|].
  exact (proj2 (proj2 (proj2
    (missing_metadata_throws 1000 (fun _ => true) Examples.bareRace
       eq_refl)))).
Defined.

(** ** The order of the results *)

Lemma parsedAt_perm (rs rs' : list (option result)) j q :
  Permutation rs rs' -> parsedAt rs j q -> exists j', parsedAt rs' j' q.
Proof.
  intros Hperm Hq. unfold parsedAt in *.
  apply list_elem_of_lookup_2 in Hq. rewrite Hperm in Hq.
  apply list_elem_of_lookup_1 in Hq. exact Hq.
Qed.

(** The winner of an event with metadata, with its latency. *)
Lemma winner_facts timestamp ev m w :
  eventMetadata ev = Some m ->
  winnerOf timestamp ev = Some w ->
  let rs := match results ev with Some rs => rs | None => [] end in
  parsedAt rs (pathId w) (winningPayload w) /\
  isOk (winningPayload w) = true /\
  winningTime w = effectiveTime timestamp (winningPayload w) /\
  latency w
  = winningTime w
    - match startTime m with Some s => s | None => timestamp end /\
  forall j q,
    parsedAt rs j q -> isOk q = true ->
    winningTime w <= effectiveTime timestamp q.
Proof.
  intros Hm Hw rs.
  pose proof (SuperpositionProofs.winnerOf_scanned timestamp ev m Hm) as Hinv.
  simpl in Hinv. fold rs in Hinv.
  unfold winnerOf in Hw. rewrite Hm in Hw. fold rs in Hw.
  unfold scanned in Hinv. rewrite Hw in Hinv.
  destruct Hinv as (_ & _ & Hp & Hok & Ht & Hl & Hall).
  do 4 (split; [assumption|]).
  intros j q Hq Hq'. apply (Hall j q); [|assumption..].
  eapply SuperpositionProofs.parsedAt_lt, Hq.
Qed.

(** X10. When the successful payloads report pairwise different times,
    the winner does not depend on the order of the results: two races over
    the same entries in different orders collapse to the same payload, the
    same time and the same latency, or are both without winner. *)
Theorem winner_independent_of_order
    (timestamp : Z) (exId : option string) (m : metadata)
    (rs rs' : list (option result)) :
  Permutation rs rs' ->
  (forall j1 j2 q1 q2,
      parsedAt rs j1 q1 -> parsedAt rs j2 q2 ->
      isOk q1 = true -> isOk q2 = true ->
      effectiveTime timestamp q1 = effectiveTime timestamp q2 -> q1 = q2) ->
  let ev l := {| executionId := exId; results := Some l;
                 eventMetadata := Some m |} in
  match winnerOf timestamp (ev rs), winnerOf timestamp (ev rs') with
  | Some w, Some w' =>
      winningPayload w = winningPayload w' /\
      winningTime w = winningTime w' /\
      latency w = latency w'
  | None, None => True
  | _, _ => False
  end.
Proof.
  intros Hperm Hdistinct ev.
  destruct (winnerOf timestamp (ev rs)) as [w|] eqn:Hw;
    destruct (winnerOf timestamp (ev rs')) as [w'|] eqn:Hw'.
  - destruct (winner_facts timestamp (ev rs) m w eq_refl Hw)
      as (Hp & Hok & Ht & Hl & Hmin).
    destruct (winner_facts timestamp (ev rs') m w' eq_refl Hw')
      as (Hp' & Hok' & Ht' & Hl' & Hmin').
    simpl in *.
    destruct (parsedAt_perm rs rs' _ _ Hperm Hp) as (j' & Hj').
    destruct (parsedAt_perm rs' rs _ _ (Permutation_sym Hperm) Hp')
      as (j & Hj).
    pose proof (Hmin' _ _ Hj' Hok) as H1.
    pose proof (Hmin _ _ Hj Hok') as H2.
    assert (winningPayload w = winningPayload w') as Heq.
    { apply (Hdistinct (pathId w) j); try assumption. lia. }
    split; [exact Heq|]. rewrite Hl, Hl', Ht, Ht', Heq. split; reflexivity.
  - destruct (winner_facts timestamp (ev rs) m w eq_refl Hw)
      as (Hp & Hok & _).
    simpl in Hp.
    destruct (parsedAt_perm rs rs' _ _ Hperm Hp) as (j' & Hj').
    eapply (SuperpositionProofs.success_makes_winner timestamp (ev rs') m);
      [reflexivity|exact Hj'|exact Hok|exact Hw'].
  - destruct (winner_facts timestamp (ev rs') m w' eq_refl Hw')
      as (Hp' & Hok' & _).
    simpl in Hp'.
    destruct (parsedAt_perm rs' rs _ _ (Permutation_sym Hperm) Hp')
      as (j & Hj).
    eapply (SuperpositionProofs.success_makes_winner timestamp (ev rs) m);
      [reflexivity|exact Hj|exact Hok'|exact Hw].
  - exact I.
Qed.

Lemma winner_independent_of_order_witness :
  Permutation
    [Examples.timedSuccess "a" 50; Examples.timedSuccess "b" 10]
    [Examples.timedSuccess "b" 10; Examples.timedSuccess "a" 50] /\
  match
    winnerOf 1000
      {| executionId := Some "exec-0"%string;
         results := Some [Examples.timedSuccess "a" 50;
                          Examples.timedSuccess "b" 10];
         eventMetadata := Some {| startTime := Some 0 |} |},
    winnerOf 1000
      {| executionId := Some "exec-0"%string;
         results := Some [Examples.timedSuccess "b" 10;
                          Examples.timedSuccess "a" 50];
         eventMetadata := Some {| startTime := Some 0 |} |}
  with
  | Some w, Some w' =>
      winningPayload w = winningPayload w' /\
      winningTime w = winningTime w' /\
      latency w = latency w'
  | None, None => True
  | _, _ => False
  end.
Proof.
  assert (Permutation
            [Examples.timedSuccess "a" 50; Examples.timedSuccess "b" 10]
            [Examples.timedSuccess "b" 10; Examples.timedSuccess "a" 50])
    as Hperm by apply perm_swap.
  split; [exact Hperm|].
  apply (winner_independent_of_order 1000 (Some "exec-0"%string)
           {| startTime := Some 0 |} _ _ Hperm).
  intros j1 j2 q1 q2 H1 H2 _ _ Ht. unfold parsedAt in *.
  destruct j1 as [|[|j1]]; destruct j2 as [|[|j2]]; simpl in *;
    try discriminate;
    injection H1 as <-; injection H2 as <-;
    try reflexivity; discriminate.
Defined.

(** ** The handler *)

(** X11. The coordinator's handler throws without writing for an action
    other than initialize and measure.  For initialize it sends one item
    with the execution id, the input and the start time, and returns
    status initialized when the write succeeds; it throws without writing
    when the event lacks one of the three.  For measure it sends the
    measurement record when the event has its execution id and the
    measurement has a winner, and throws without writing otherwise.  In
    every case it sends at most one item, it returns only after a write
    that succeeded, and every item it sends expires 24 hours after the
    timestamp, to the second. *)
Theorem coordinator_writes_at_most_one_item
    (timestamp : Z) (putItem : item -> bool) (rq : request) :
  let r := handler timestamp putItem rq in
  (action rq <> "initialize"%string -> action rq <> "measure"%string ->
   r = ([], Throws)) /\
  (action rq = "initialize"%string ->
   match executionId (measured rq), input rq, requestStartTime rq with
   | Some id, Some i, Some s =>
       exists ttl,
         let it := InitializationItem id timestamp i s ttl in
         fst r = [it] /\
         snd r = if putItem it then Returns (Initialized id timestamp)
                 else Throws
   | _, _, _ => r = ([], Throws)
   end) /\
  (action rq = "measure"%string ->
   match executionId (measured rq), winnerOf timestamp (measured rq) with
   | Some id, Some w =>
       let it := MeasurementItem (recordOf timestamp (measured rq)) in
       fst r = [it] /\
       recordId (recordOf timestamp (measured rq)) = Some id /\
       winningPath (recordOf timestamp (measured rq)) = Some (pathId w) /\
       (putItem it = false <-> snd r = Throws)
   | _, _ => r = ([], Throws)
   end) /\
  (length (fst r) <= 1)%nat /\
  (snd r <> Throws -> exists it, fst r = [it] /\ putItem it = true) /\
  (forall it,
      In it (fst r) ->
      1000 * ttlOf it <= timestamp + 86400000 < 1000 * ttlOf it + 1000).
Proof.
  assert (1000 * (timestamp / 1000 + 86400) <= timestamp + 86400000
          < 1000 * (timestamp / 1000 + 86400) + 1000) as Httl
    by (Z.div_mod_to_equations; lia).
  unfold handler, initializeExecution.
  destruct (String.eqb (action rq) "initialize") eqn:Ei.
  - apply String.eqb_eq in Ei. rewrite Ei. simpl.
    split; [congruence|].
    split; [|split; [discriminate|]].
    + intros _.
      destruct (executionId (measured rq)) as [id|]; [|reflexivity].
      destruct (input rq) as [i|]; [|reflexivity].
      destruct (requestStartTime rq) as [s|]; [|reflexivity].
      eexists. split; reflexivity.
    + destruct (executionId (measured rq)) as [id|];
        [destruct (input rq) as [i|];
         [destruct (requestStartTime rq) as [s|]|]|]; simpl.
      * split; [lia|]. split.
        -- intros Hr. eexists. split; [reflexivity|].
           destruct (putItem _); [reflexivity|congruence].
        -- intros it [<-|[]]. exact Httl.
      * split; [lia|]. split; [congruence|]. intros it [].
      * split; [lia|]. split; [congruence|]. intros it [].
      * split; [lia|]. split; [congruence|]. intros it [].
  - apply String.eqb_neq in Ei.
    destruct (String.eqb (action rq) "measure") eqn:Em.
    + apply String.eqb_eq in Em. rewrite Em.
      split; [congruence|]. split; [discriminate|].
      assert (forall it : item, In it [] ->
                1000 * ttlOf it <= timestamp + 86400000
                < 1000 * ttlOf it + 1000) as Hnil by (intros it []).
      destruct (executionId (measured rq)) as [id|] eqn:Hid.
      * destruct (winnerOf timestamp (measured rq)) as [w|] eqn:Hw.
        -- destruct (SuperpositionProofs.winner_collapses timestamp
                       (fun r => putItem (MeasurementItem r)) (measured rq)
                       id w Hid Hw) as [_ Hr].
           rewrite Hr. simpl.
           split.
           { intros _. split; [reflexivity|].
             split; [unfold recordOf; simpl; exact Hid|].
             split; [unfold recordOf; simpl; rewrite Hw; reflexivity|].
             destruct (putItem _); split; congruence. }
           split; [lia|]. split.
           ++ intros Hne. eexists. split; [reflexivity|].
              destruct (putItem _); [reflexivity|congruence].
           ++ intros it [<-|[]]. exact Httl.
        -- destruct (SuperpositionProofs.no_winner_throws timestamp
                       (fun r => putItem (MeasurementItem r)) (measured rq)
                       Hw) as [_ Hr].
           rewrite Hr. simpl.
           split; [reflexivity|]. split; [lia|].
           split; [congruence|exact Hnil].
      * destruct (SuperpositionProofs.no_execution_id_throws timestamp
                    (fun r => putItem (MeasurementItem r)) (measured rq)
                    Hid) as [_ Hr].
        rewrite Hr. simpl.
        split; [reflexivity|]. split; [lia|].
        split; [congruence|exact Hnil].
    + apply String.eqb_neq in Em. simpl.
      split; [reflexivity|].
      split; [congruence|]. split; [congruence|].
      split; [lia|]. split; [congruence|]. intros it [].
Qed.

Lemma coordinator_writes_at_most_one_item_witness :
  ("archive" <> "initialize")%string /\ ("archive" <> "measure")%string /\
  handler 1000 (fun _ => true)
    {| action := "archive"; input := Some "{}"; requestStartTime := None;
       measured := Examples.timedRace |}
  = ([], Throws) /\
  handler 1000 (fun _ => true)
    {| action := "initialize"; input := Some "{}"; requestStartTime := None;
       measured := Examples.timedRace |}
  = ([], Throws).
Proof.
  assert ("archive" <> "initialize")%string as H1 by discriminate.
  assert ("archive" <> "measure")%string as H2 by discriminate.
  split; [exact H1|]. split; [exact H2|].
  split.
  - exact (proj1 (coordinator_writes_at_most_one_item 1000 (fun _ => true)
                    {| action := "archive"; input := Some "{}";
                       requestStartTime := None;
                       measured := Examples.timedRace |}) H1 H2).
  - exact (proj1 (proj2
      (coordinator_writes_at_most_one_item 1000 (fun _ => true)
         {| action := "initialize"; input := Some "{}";
            requestStartTime := None;
            measured := Examples.timedRace |})) eq_refl).
Defined.

End SuperpositionProperties.

(* ===================================================================== *)
(** * Further properties of the hedge orchestrator *)
(* ===================================================================== *)

Module HedgeProperties.
Import Hedge.

(** ** Invocations *)

(** An invocation settles: it answers before its timeout or is rejected
    by then. *)
Lemma invoke_settles world functionName timeoutMs :
  match invokeFunctionWithTimeout world functionName timeoutMs with
  | Fulfilled t _ => t < timeoutMs
  | Rejected t _ => t <= timeoutMs
  | Pending => False
  end.
Proof.
  unfold invokeFunctionWithTimeout.
  destruct (timeoutMs <=? delay (world functionName)) eqn:E.
  - lia.
  - apply Z.leb_gt in E. destruct (outcome (world functionName)); lia.
Qed.

(** ** The race *)

Lemma settlesFirst_trans a b c :
  settledRaced b ->
  settlesFirst a b = true -> settlesFirst b c = true ->
  settlesFirst a c = true.
Proof.
  unfold settledRaced, settlesFirst.
  destruct (settlesAt a), (settlesAt b), (settlesAt c); try congruence.
  rewrite !Z.leb_le. lia.
Qed.

Lemma settlesFirst_refl a : settledRaced a -> settlesFirst a a = true.
Proof.
  unfold settledRaced, settlesFirst. destruct (settlesAt a); [|congruence].
  intros _. apply Z.leb_le. lia.
Qed.

Lemma settlesFirst_total a b :
  settledRaced a -> settledRaced b ->
  settlesFirst a b = false -> settlesFirst b a = true.
Proof.
  unfold settledRaced, settlesFirst.
  destruct (settlesAt a), (settlesAt b); try congruence.
  rewrite Z.leb_gt, Z.leb_le. lia.
Qed.

(** [Promise.race] of settling promises yields one of them, and none of
    them settles before it. *)
Lemma Promise_race_first (l : list raced) :
  l <> [] -> Forall settledRaced l ->
  settledRaced (Promise_race l) /\
  (exists i, l !! i = Some (Promise_race l)) /\
  Forall (fun q => settlesFirst (Promise_race l) q = true) l.
Proof.
  intros Hne Hall. induction Hall as [|p rest Hp Hrest IH]; [congruence|].
  simpl. destruct rest as [|p' rest'].
  - simpl. unfold settledRaced in Hp.
    assert (settlesFirst p Never = true) as ->.
    { unfold settlesFirst. simpl. destruct (settlesAt p); congruence. }
    split; [exact Hp|]. split; [exists 0%nat; reflexivity|].
    constructor; [apply settlesFirst_refl, Hp|constructor].
  - destruct IH as (Hr & (i & Hi) & Hfirst); [discriminate|].
    set (r := Promise_race (p' :: rest')) in *.
    destruct (settlesFirst p r) eqn:E.
    + split; [exact Hp|]. split; [exists 0%nat; reflexivity|].
      constructor; [apply settlesFirst_refl, Hp|].
      eapply Forall_impl; [exact Hfirst|]. intros q Hq. simpl in Hq.
      eapply settlesFirst_trans; eauto.
    + unfold settledRaced in Hr. destruct (settlesAt r) eqn:Er; [|congruence].
      split; [unfold settledRaced; congruence|].
      split; [exists (S i); exact Hi|].
      constructor; [|exact Hfirst].
      apply settlesFirst_total; [exact Hp|unfold settledRaced; congruence|].
      exact E.
Qed.

Lemma participants_settle cfg world :
  Forall (fun p => p <> Pending) (immediateParticipants cfg world).
Proof.
  assert (forall f t, invokeFunctionWithTimeout world f t <> Pending) as H.
  { intros f t. pose proof (invoke_settles world f t) as Hs.
    destruct (invokeFunctionWithTimeout world f t); [discriminate..|tauto]. }
  unfold immediateParticipants. constructor; [apply H|].
  apply Forall_forall. intros p Hp. apply list_elem_of_In in Hp.
  apply in_map_iff in Hp as (name & <- & _). apply H.
Qed.

Lemma participants_bounded cfg world p :
  In p (immediateParticipants cfg world) ->
  match p with
  | Fulfilled t _ => t < hedgeThresholdMs cfg * 2
  | Rejected t _ => t <= hedgeThresholdMs cfg * 2
  | Pending => False
  end.
Proof.
  unfold immediateParticipants. intros [<-|Hp].
  - apply invoke_settles.
  - apply in_map_iff in Hp as (name & <- & _). apply invoke_settles.
Qed.

(** X12. With a non-negative threshold the immediate hedge always
    settles, within twice the threshold, and as the first participant to
    settle does: it is fulfilled with a participant's answer, naming that
    participant as winner, or rejected with the all-failed error because a
    participant was rejected, and in both cases no participant settles
    earlier. *)
Theorem immediate_hedge_first_settlement
    (cfg : config) (world : string -> behaviour) (rid : string) :
  0 <= hedgeThresholdMs cfg ->
  let ps := immediateParticipants cfg world in
  match executeImmediateHedgedRequest cfg world rid with
  | Fulfilled t out =>
      t < hedgeThresholdMs cfg * 2 /\
      (exists i,
          ps !! i = Some (Fulfilled t (payload out)) /\
          metadata out
          = {| mdStrategy := IMMEDIATE_HEDGE; winner := Some (sourceOf i);
               hedgesTriggered := None; speculativeExecutions := None;
               mdRequestId := rid |}) /\
      forall p, In p ps -> t <= settleTime p
  | Rejected t e =>
      t <= hedgeThresholdMs cfg * 2 /\
      e = AllHedgedFailed (Some "undefined") /\
      (exists i e', ps !! i = Some (Rejected t e')) /\
      forall p, In p ps -> t <= settleTime p
  | Pending => False
  end.
Proof.
  intros _ ps.
  pose proof (participants_settle cfg world) as Hsettle. fold ps in Hsettle.
  assert (executeImmediateHedgedRequest cfg world rid
          = match Promise_race (imap wrap ps) with
            | Won t r w =>
                Fulfilled t
                  {| payload := r;
                     metadata :=
                       {| mdStrategy := IMMEDIATE_HEDGE; winner := Some w;
                          hedgesTriggered := None;
                          speculativeExecutions := None;
                          mdRequestId := rid |} |}
            | Lost t _ _ => Rejected t (AllHedgedFailed (Some "undefined"))
            | Never => Pending
            end) as -> by reflexivity.
  destruct (Promise_race_first (imap wrap ps)) as (Hr & (i & Hi) & Hfirst).
  { unfold ps, immediateParticipants. discriminate. }
  { apply Forall_forall. intros r Hr.
    apply elem_of_lookup_imap in Hr as (j & p & -> & Hp).
    rewrite Forall_forall in Hsettle.
    assert (p <> Pending) as Hne
      by (apply Hsettle; eapply list_elem_of_lookup_2, Hp).
    destruct p; [discriminate..|congruence]. }
  remember (Promise_race (imap wrap ps)) as R eqn:HR. clear HR.
  rewrite list_lookup_imap in Hi.
  destruct (ps !! i) as [p|] eqn:Hp; [|discriminate].
  injection Hi as <-.
  assert (forall q, In q ps ->
          match settlesAt (wrap i p) with
          | Some t => t <= settleTime q
          | None => False
          end) as Hmin.
  { intros q Hq. apply list_elem_of_In, list_elem_of_lookup_1 in Hq
      as (j & Hj).
    rewrite Forall_forall in Hfirst.
    assert (settlesFirst (wrap i p) (wrap j q) = true) as Hle.
    { apply Hfirst. apply elem_of_lookup_imap. exists j, q. auto. }
    rewrite Forall_forall in Hsettle.
    assert (q <> Pending) as Hne
      by (apply Hsettle; eapply list_elem_of_lookup_2, Hj).
    unfold settlesFirst in Hle.
    destruct (settlesAt (wrap i p)); [|discriminate].
    destruct q; simpl in *; try congruence; apply Z.leb_le, Hle. }
  pose proof (participants_bounded cfg world p) as Hbound.
  fold ps in Hbound.
  assert (In p ps) as Hin
    by (apply list_elem_of_In; eapply list_elem_of_lookup_2, Hp).
  specialize (Hbound Hin).
  destruct p as [t r|t e|]; simpl in *.
  - split; [exact Hbound|]. split; [exists i; auto|exact Hmin].
  - split; [exact Hbound|]. split; [reflexivity|].
    split; [exists i, e; exact Hp|exact Hmin].
  - exact Hbound.
Qed.

Lemma immediate_hedge_first_settlement_witness :
  0 <= hedgeThresholdMs Examples.hedgeConfig /\
  executeImmediateHedgedRequest Examples.hedgeConfig Examples.everyoneAnswers
    "req-1"
  = Fulfilled 40
      {| payload := Examples.backupAnswer;
         metadata :=
           {| mdStrategy := IMMEDIATE_HEDGE; winner := Some primary;
              hedgesTriggered := None; speculativeExecutions := None;
              mdRequestId := "req-1" |} |} /\
  forall p,
    In p (immediateParticipants Examples.hedgeConfig
            Examples.everyoneAnswers) ->
    40 <= settleTime p.
Proof.
  assert (0 <= hedgeThresholdMs Examples.hedgeConfig) as HT
    by discriminate.
  split; [exact HT|]. split; [reflexivity|].
  exact (proj2 (proj2
    (immediate_hedge_first_settlement Examples.hedgeConfig
       Examples.everyoneAnswers "req-1" HT))).
Defined.

(** ** The delayed hedge *)

Lemma firstCall_in (calls : list (Z * call)) c :
  firstCall calls = Some c ->
  In c calls /\ forall c', In c' calls -> fst c <= fst c'.
Proof.
  revert c. induction calls as [|c0 rest IH]; intros c Hc; [discriminate|].
  simpl in Hc. destruct (firstCall rest) as [c1|] eqn:E.
  - destruct (IH c1 eq_refl) as [Hin Hmin].
    destruct (fst c0 <=? fst c1) eqn:Hle; injection Hc as <-.
    + apply Z.leb_le in Hle. split; [left; reflexivity|].
      intros c' [<-|Hc']; [lia|]. specialize (Hmin c' Hc'). lia.
    + apply Z.leb_gt in Hle. split; [right; exact Hin|].
      intros c' [<-|Hc']; [lia|]. apply Hmin, Hc'.
  - injection Hc as <-. destruct rest; [|simpl in E;
      destruct (firstCall rest); [destruct (_ <=? _)|]; discriminate].
    split; [left; reflexivity|]. intros c' [<-|[]]. lia.
Qed.

Lemma firstCall_none (calls : list (Z * call)) :
  firstCall calls = None -> calls = [].
Proof.
  destruct calls as [|c rest]; [reflexivity|]. simpl.
  destruct (firstCall rest); [destruct (_ <=? _)|]; discriminate.
Qed.

(** The calls of [resolve] that the backups make. *)
Lemma hedge_call_in (mk : nat -> response -> output)
    (hedges : list (promise response)) c :
  In c (omap (fun x => x)
          (imap (fun i p =>
                   match p with
                   | Fulfilled t r => Some (t, Resolve (mk i r))
                   | _ => None
                   end) hedges)) ->
  exists i t r,
    hedges !! i = Some (Fulfilled t r) /\ c = (t, Resolve (mk i r)).
Proof.
  intros Hc. apply list_elem_of_In, list_elem_of_omap in Hc
    as (x & Hx & Hsome).
  apply elem_of_lookup_imap in Hx as (i & p & -> & Hp).
  destruct p as [t r| |]; try discriminate.
  injection Hsome as <-. exists i, t, r. auto.
Qed.

Lemma hedges_length cfg (f : string -> promise response) :
  length (map f (take (Nat.min (maxHedgedRequests cfg)
                         (length (backupFunctionNames cfg)))
                   (backupFunctionNames cfg)))
  = hedgeCount cfg.
Proof.
  rewrite length_map, length_take. unfold hedgeCount. lia.
Qed.

(** X13. When the primary answers before the hedge threshold, the delayed
    hedge resolves with the primary's answer at that time and has
    triggered no hedge. *)
Theorem delayed_hedge_fast_primary
    (cfg : config) (world : string -> behaviour) (rid : string)
    (tp : Z) (r : response) :
  invokeFunctionWithTimeout world (primaryFunctionName cfg)
    (hedgeThresholdMs cfg * 3) = Fulfilled tp r ->
  tp < hedgeThresholdMs cfg ->
  executeDelayedHedgedRequest cfg world rid
  = Fulfilled tp
      {| payload := r;
         metadata :=
           {| mdStrategy := DELAYED_HEDGE; winner := Some primary;
              hedgesTriggered := Some 0%nat; speculativeExecutions := None;
              mdRequestId := rid |} |}.
Proof.
  intros Hprimary Hfast. unfold executeDelayedHedgedRequest.
  rewrite Hprimary. cbv zeta.
  rewrite (proj2 (Z.leb_gt (hedgeThresholdMs cfg) tp) Hfast).
  reflexivity.
Qed.

Lemma delayed_hedge_fast_primary_witness :
  invokeFunctionWithTimeout Examples.everyoneAnswers "primary-fn"
    (hedgeThresholdMs Examples.hedgeConfig * 3)
  = Fulfilled 40 Examples.backupAnswer /\
  40 < hedgeThresholdMs Examples.hedgeConfig /\
  executeDelayedHedgedRequest Examples.hedgeConfig Examples.everyoneAnswers
    "req-1"
  = Fulfilled 40
      {| payload := Examples.backupAnswer;
         metadata :=
           {| mdStrategy := DELAYED_HEDGE; winner := Some primary;
              hedgesTriggered := Some 0%nat; speculativeExecutions := None;
              mdRequestId := "req-1" |} |}.
Proof.
  assert (40 < hedgeThresholdMs Examples.hedgeConfig) as Hfast
    by reflexivity.
  split; [reflexivity|]. split; [exact Hfast|].
  exact (delayed_hedge_fast_primary Examples.hedgeConfig
           Examples.everyoneAnswers "req-1" 40 Examples.backupAnswer
           eq_refl Hfast).
Defined.

(** X14. When the primary answers, the delayed hedge resolves, no later
    than the primary's answer and within three times the threshold; the
    winner is the primary or one of the backups that the timer started,
    and a backup can only win when the primary took at least the
    threshold. *)
Theorem delayed_hedge_resolves_when_primary_answers
    (cfg : config) (world : string -> behaviour) (rid : string)
    (tp : Z) (r : response) :
  invokeFunctionWithTimeout world (primaryFunctionName cfg)
    (hedgeThresholdMs cfg * 3) = Fulfilled tp r ->
  exists t out,
    executeDelayedHedgedRequest cfg world rid = Fulfilled t out /\
    t <= tp /\ tp < hedgeThresholdMs cfg * 3 /\
    mdStrategy (metadata out) = DELAYED_HEDGE /\
    mdRequestId (metadata out) = rid /\
    ((winner (metadata out) = Some primary /\ payload out = r) \/
     exists i,
       winner (metadata out) = Some (backup i) /\
       (i < hedgeCount cfg)%nat /\
       hedgeThresholdMs cfg <= tp).
Proof.
  intros Hprimary.
  pose proof (invoke_settles world (primaryFunctionName cfg)
                (hedgeThresholdMs cfg * 3)) as Hbound.
  rewrite Hprimary in Hbound.
  unfold executeDelayedHedgedRequest. rewrite Hprimary. cbv zeta.
  set (T := hedgeThresholdMs cfg) in *.
  set (hedges := if T <=? tp then _ else []).
  assert ((T <=? tp) = false -> hedges = []) as Hnone
    by (intros E; unfold hedges; rewrite E; reflexivity).
  assert (length hedges <= hedgeCount cfg)%nat as Hlen.
  { unfold hedges. destruct (T <=? tp); [|simpl; lia].
    rewrite hedges_length. lia. }
  set (hedgeCalls := omap _ _).
  assert ((if T <=? tp
           then
             if (length (List.filter isError
                           (NotAnError :: map (fun _ => NotAnError) hedges))
                 =? length (NotAnError :: map (fun _ => NotAnError) hedges))%nat
             then
               [(fold_right Z.max (Z.max T (settleTime (Fulfilled tp r)))
                   (map settleTime hedges), Reject (AllHedgedFailed None))]
             else []
           else []) = []) as ->.
  { destruct (T <=? tp); [|reflexivity].
    simpl. rewrite HedgeProofs.no_error_among_hedges. reflexivity. }
  rewrite app_nil_r.
  set (c0 := (tp, Resolve _)).
  change ([c0] ++ hedgeCalls) with (c0 :: hedgeCalls).
  destruct (firstCall (c0 :: hedgeCalls)) as [[t c]|] eqn:E;
    [|apply firstCall_none in E; discriminate].
  apply firstCall_in in E as [Hin Hmin].
  assert (t <= tp) as Hle
    by (apply (Hmin c0); left; reflexivity).
  destruct Hin as [Heq|Hin].
  - unfold c0 in Heq. injection Heq as <- <-. eexists _, _. split; [reflexivity|].
    simpl. repeat split; try lia. left. split; reflexivity.
  - apply hedge_call_in in Hin as (i & t' & r' & Hi & Heq).
    injection Heq as -> ->. eexists _, _. split; [reflexivity|].
    simpl. repeat split; try lia. right. exists i.
    split; [reflexivity|].
    apply lookup_lt_Some in Hi.
    split; [lia|].
    destruct (T <=? tp) eqn:Et; [apply Z.leb_le, Et|].
    rewrite (Hnone eq_refl) in Hi. simpl in Hi. lia.
Qed.

Lemma delayed_hedge_resolves_when_primary_answers_witness :
  invokeFunctionWithTimeout Examples.everyoneAnswers "primary-fn"
    (hedgeThresholdMs Examples.hedgeConfig * 3)
  = Fulfilled 40 Examples.backupAnswer /\
  exists t out,
    executeDelayedHedgedRequest Examples.hedgeConfig Examples.everyoneAnswers
      "req-1" = Fulfilled t out /\
    t <= 40.
Proof.
  split; [reflexivity|].
  destruct (delayed_hedge_resolves_when_primary_answers Examples.hedgeConfig
              Examples.everyoneAnswers "req-1" 40 Examples.backupAnswer
              eq_refl)
    as (t & out & Hr & Hle & _).
  exists t, out. split; [exact Hr|exact Hle].
Defined.

(** Where a call of [resolve] or [reject] of the delayed hedge comes
    from. *)
Lemma delayed_hedge_call cfg world rid :
  let T := hedgeThresholdMs cfg in
  let primaryPromise :=
    invokeFunctionWithTimeout world (primaryFunctionName cfg) (T * 3) in
  match executeDelayedHedgedRequest cfg world rid with
  | Fulfilled t out =>
      mdStrategy (metadata out) = DELAYED_HEDGE /\
      mdRequestId (metadata out) = rid /\
      ((primaryPromise = Fulfilled t (payload out) /\
        winner (metadata out) = Some primary) \/
       exists i name t0,
         backupFunctionNames cfg !! i = Some name /\
         (i < hedgeCount cfg)%nat /\
         invokeFunctionWithTimeout world name T
         = Fulfilled t0 (payload out) /\
         t = T + t0 /\
         winner (metadata out) = Some (backup i))
  | Rejected t e =>
      e = AllHedgedFailed None /\
      hedgeCount cfg = 0%nat /\
      exists tp e0, primaryPromise = Rejected tp e0 /\ t = Z.max T tp
  | Pending => True
  end.
Proof.
  intros T primaryPromise. unfold executeDelayedHedgedRequest. cbv zeta.
  fold T. fold primaryPromise.
  set (timerFires := match primaryPromise with
                     | Fulfilled t _ => T <=? t
                     | _ => true
                     end).
  set (hedges := if timerFires then _ else []).
  match goal with
  | |- context [firstCall (?P ++ ?H ++ ?A)] =>
      set (pc := P); set (hc := H); set (ac := A)
  end.
  assert (forall c, In c pc ->
          exists t r, primaryPromise = Fulfilled t r /\
                      c = (t, Resolve
                                {| payload := r;
                                   metadata :=
                                     {| mdStrategy := DELAYED_HEDGE;
                                        winner := Some primary;
                                        hedgesTriggered :=
                                          Some (length hedges);
                                        speculativeExecutions := None;
                                        mdRequestId := rid |} |})) as Hpc.
  { intros c Hc. unfold pc in Hc.
    destruct primaryPromise as [t r| |]; try destruct Hc.
    - exists t, r. split; [reflexivity|]. symmetry. assumption.
    - destruct H. }
  assert (forall c, In c hc ->
          exists i name t0 r,
            backupFunctionNames cfg !! i = Some name /\
            (i < hedgeCount cfg)%nat /\
            invokeFunctionWithTimeout world name T = Fulfilled t0 r /\
            c = (T + t0,
                 Resolve
                   {| payload := r;
                      metadata :=
                        {| mdStrategy := DELAYED_HEDGE;
                           winner := Some (backup i);
                           hedgesTriggered := Some (length hedges + 1)%nat;
                           speculativeExecutions := None;
                           mdRequestId := rid |} |})) as Hhc.
  { intros c Hc. unfold hc in Hc.
    apply (hedge_call_in
             (fun i r =>
                {| payload := r;
                   metadata :=
                     {| mdStrategy := DELAYED_HEDGE;
                        winner := Some (backup i);
                        hedgesTriggered := Some (length hedges + 1)%nat;
                        speculativeExecutions := None;
                        mdRequestId := rid |} |})) in Hc
      as (i & t & r & Hi & ->).
    unfold hedges in Hi. destruct timerFires; [|discriminate].
    rewrite list_lookup_fmap in Hi.
    destruct (take _ (backupFunctionNames cfg) !! i) as [name|] eqn:Hname;
      [|discriminate].
    apply lookup_take_Some in Hname as [Hname Hlt].
    simpl in Hi. injection Hi as Hi.
    destruct (invokeFunctionWithTimeout world name T) as [t0 r0| |] eqn:Hinv;
      try discriminate.
    injection Hi as <- <-.
    exists i, name, t0, r0. unfold hedgeCount. auto. }
  assert (forall c, In c ac ->
          hedgeCount cfg = 0%nat /\
          exists tp e0,
            primaryPromise = Rejected tp e0 /\
            c = (Z.max T tp, Reject (AllHedgedFailed None))) as Hac.
  { intros c Hc. unfold ac in Hc.
    destruct timerFires eqn:Etimer; [|destruct Hc].
    assert (length hedges = hedgeCount cfg) as Hlen
      by (unfold hedges; apply hedges_length).
    destruct primaryPromise as [tp r|tp e0|] eqn:Hp.
    - simpl in Hc. rewrite HedgeProofs.no_error_among_hedges in Hc.
      destruct Hc.
    - simpl in Hc. rewrite HedgeProofs.no_error_among_hedges in Hc.
      simpl in Hc. rewrite length_map in Hc.
      destruct hedges as [|h hs]; simpl in Hc; [|destruct Hc].
      destruct Hc as [<-|[]]. split; [simpl in Hlen; lia|].
      exists tp, e0. split; reflexivity.
    - simpl in Hc. rewrite HedgeProofs.no_error_among_hedges in Hc.
      destruct Hc. }
  destruct (firstCall (pc ++ hc ++ ac)) as [[t c]|] eqn:E; [|exact I].
  apply firstCall_in in E as [Hin _].
  apply in_app_or in Hin as [Hin|Hin]; [|apply in_app_or in Hin as [Hin|Hin]].
  - apply Hpc in Hin as (t' & r & Hp & Heq). injection Heq as -> ->.
    simpl. split; [reflexivity|]. split; [reflexivity|].
    left. split; [exact Hp|reflexivity].
  - apply Hhc in Hin as (i & name & t0 & r & Hname & Hlt & Hinv & Heq).
    injection Heq as -> ->. simpl.
    split; [reflexivity|]. split; [reflexivity|].
    right. exists i, name, t0. auto.
  - apply Hac in Hin as (Hcount & tp & e0 & Hp & Heq).
    injection Heq as -> ->. split; [reflexivity|].
    split; [exact Hcount|]. exists tp, e0. auto.
Qed.

(** X15. With a non-negative threshold the delayed hedge is rejected
    exactly when the primary is rejected and the timer has no backup to
    start; it is then rejected with the all-failed error, when both the
    primary has failed and the timer has fired. *)
Theorem delayed_hedge_rejects_iff_no_backup
    (cfg : config) (world : string -> behaviour) (rid : string) :
  0 <= hedgeThresholdMs cfg ->
  let T := hedgeThresholdMs cfg in
  let primaryPromise :=
    invokeFunctionWithTimeout world (primaryFunctionName cfg) (T * 3) in
  (forall t e,
      executeDelayedHedgedRequest cfg world rid = Rejected t e ->
      e = AllHedgedFailed None /\
      hedgeCount cfg = 0%nat /\
      exists tp e0, primaryPromise = Rejected tp e0 /\ t = Z.max T tp) /\
  (forall tp e0,
      primaryPromise = Rejected tp e0 ->
      hedgeCount cfg = 0%nat ->
      executeDelayedHedgedRequest cfg world rid
      = Rejected (Z.max T tp) (AllHedgedFailed None)).
Proof.
  intros _ T primaryPromise. split.
  - intros t e Hr.
    pose proof (delayed_hedge_call cfg world rid) as Hcall.
    simpl in Hcall. rewrite Hr in Hcall. exact Hcall.
  - intros tp e0 Hp Hcount. unfold executeDelayedHedgedRequest.
    fold T. fold primaryPromise. rewrite Hp. cbv zeta.
    unfold hedgeCount in Hcount. rewrite Hcount. reflexivity.
Qed.

Lemma delayed_hedge_rejects_iff_no_backup_witness :
  0 <= hedgeThresholdMs Examples.loneConfig /\
  invokeFunctionWithTimeout Examples.everyoneFails "primary-fn"
    (hedgeThresholdMs Examples.loneConfig * 3)
  = Rejected 10 InvocationError /\
  hedgeCount Examples.loneConfig = 0%nat /\
  executeDelayedHedgedRequest Examples.loneConfig Examples.everyoneFails
    "req-1"
  = Rejected 100 (AllHedgedFailed None).
Proof.
  assert (0 <= hedgeThresholdMs Examples.loneConfig) as HT by discriminate.
  split; [exact HT|]. split; [reflexivity|]. split; [reflexivity|].
  exact (proj2 (delayed_hedge_rejects_iff_no_backup Examples.loneConfig
                  Examples.everyoneFails "req-1" HT)
           10 InvocationError eq_refl eq_refl).
Defined.

(** X16. A delayed hedge that is fulfilled returns the answer of the
    participant it names as winner: the primary's answer at the time the
    primary gave it, or the answer of a backup that the timer started,
    given less than one threshold after the timer fired; with a
    non-negative threshold it settles within three times the
    threshold. *)
Theorem delayed_hedge_returns_the_winner_answer
    (cfg : config) (world : string -> behaviour) (rid : string)
    (t : Z) (out : output) :
  executeDelayedHedgedRequest cfg world rid = Fulfilled t out ->
  let T := hedgeThresholdMs cfg in
  ((invokeFunctionWithTimeout world (primaryFunctionName cfg) (T * 3)
    = Fulfilled t (payload out) /\
    winner (metadata out) = Some primary) \/
   exists i name t0,
     backupFunctionNames cfg !! i = Some name /\
     (i < maxHedgedRequests cfg)%nat /\
     invokeFunctionWithTimeout world name T = Fulfilled t0 (payload out) /\
     t = T + t0 /\ t0 < T /\
     winner (metadata out) = Some (backup i)) /\
  (0 <= T -> t < T * 3).
Proof.
  intros Hr T.
  pose proof (delayed_hedge_call cfg world rid) as Hcall.
  simpl in Hcall. rewrite Hr in Hcall. fold T in Hcall.
  destruct Hcall as (_ & _ & [[Hp Hw]|(i & name & t0 & Hn & Hlt & Hi & Ht & Hw)]).
  - split; [left; auto|]. intros _.
    pose proof (invoke_settles world (primaryFunctionName cfg) (T * 3)) as Hb.
    rewrite Hp in Hb. exact Hb.
  - pose proof (invoke_settles world name T) as Hb. rewrite Hi in Hb.
    split; [|lia].
    right. exists i, name, t0. unfold hedgeCount in Hlt.
    repeat split; try assumption. lia.
Qed.

Lemma delayed_hedge_returns_the_winner_answer_witness :
  executeDelayedHedgedRequest Examples.hedgeConfig
    Examples.primaryFailsBackupAnswers "req-1"
  = Fulfilled 180
      {| payload := Examples.backupAnswer;
         metadata :=
           {| mdStrategy := DELAYED_HEDGE; winner := Some (backup 0);
              hedgesTriggered := Some 2%nat; speculativeExecutions := None;
              mdRequestId := "req-1" |} |} /\
  180 < hedgeThresholdMs Examples.hedgeConfig * 3.
Proof.
  split; [reflexivity|].
  apply (proj2 (delayed_hedge_returns_the_winner_answer Examples.hedgeConfig
                  Examples.primaryFailsBackupAnswers "req-1" 180 _ eq_refl)).
  discriminate.
Defined.

(** ** The handler *)

Lemma startedAt_fulfilled {A : Type} d (p : promise A) t out :
  startedAt d p = Fulfilled t out -> p = Fulfilled (t - d) out.
Proof.
  destruct p as [a v| |]; simpl; try discriminate.
  intros [= <- <-]. f_equal. lia.
Qed.

(** X17. The result of a fulfilled request carries the strategy that the
    decision chose and the request's identifier, and the metrics item
    written for it carries the same identifier under the primary
    function's name.  The identifier is the event's when the event has a
    non-empty one, and the generated one when the event has none or an
    empty one. *)
Theorem result_carries_strategy_and_request_id
    (cfg : config) (world : string -> behaviour) (st : store)
    (freshId : string) (startTime : Z) (ev : event) (t : Z) (out : output) :
  settled (handler cfg world st freshId startTime ev) = Fulfilled t out ->
  exists rid,
    (forall r, requestId ev = Some r -> r <> EmptyString -> rid = r) /\
    (requestId ev = Some EmptyString -> rid = freshId) /\
    (requestId ev = None -> rid = freshId) /\
    mdStrategy (metadata out)
    = type (fst (determineExecutionStrategy cfg (query st) ev)) /\
    mdRequestId (metadata out) = rid /\
    exists item,
      writes (handler cfg world st freshId startTime ev) = [item] /\
      itemRequestId item = rid /\
      itemFunctionName item = primaryFunctionName cfg.
Proof.
  intros Hr. exists (requestIdOf ev freshId).
  split; [|split; [|split]].
  { intros r Hev Hne. unfold requestIdOf. rewrite Hev.
    destruct r; [congruence|reflexivity]. }
  { intros Hev. unfold requestIdOf. rewrite Hev. reflexivity. }
  { intros Hev. unfold requestIdOf. rewrite Hev. reflexivity. }
  set (rid := requestIdOf ev freshId) in *.
  unfold handler, executeStrategy in *. fold rid in Hr. fold rid.
  destruct (determineExecutionStrategy cfg (query st) ev) as [s logs].
  simpl fst.
  set (result := match type s with
                 | IMMEDIATE_HEDGE => _
                 | DELAYED_HEDGE => _
                 | SPECULATIVE => _
                 | PRIMARY_ONLY => _
                 end) in *.
  destruct (startedAt (queryMs st) result) as [t' out'| |] eqn:E;
    simpl in Hr; try discriminate.
  injection Hr as -> ->.
  apply startedAt_fulfilled in E.
  assert (mdStrategy (metadata out) = type s /\
          mdRequestId (metadata out) = rid) as [Hs Hid].
  { unfold result in E. destruct (type s).
    - unfold executeImmediateHedgedRequest in E.
      destruct (Promise_race _); try discriminate.
      injection E as _ <-. split; reflexivity.
    - pose proof (delayed_hedge_call cfg world rid) as Hcall.
      simpl in Hcall. rewrite E in Hcall. tauto.
    - unfold executeSpeculativeRequest in E.
      destruct (invokeFunctionWithTimeout _ _ _); try discriminate.
      injection E as _ <-. split; reflexivity.
    - unfold executePrimaryOnly in E.
      destruct (invokeFunctionWithTimeout _ _ _); try discriminate.
      injection E as _ <-. split; reflexivity. }
  split; [exact Hs|]. split; [exact Hid|].
  simpl. eexists. split; [reflexivity|]. split; reflexivity.
Qed.

Lemma result_carries_strategy_and_request_id_witness :
  (exists t out,
      settled (handler Examples.hedgeConfig Examples.everyoneAnswers
                 Examples.emptyStore "req-0" 1000 Examples.plainEvent)
      = Fulfilled t out /\
      mdStrategy (metadata out) = PRIMARY_ONLY /\
      mdRequestId (metadata out) = "req-1"%string) /\
  (exists t out,
      settled (handler Examples.hedgeConfig Examples.everyoneAnswers
                 Examples.emptyStore "req-0" 1000 Examples.unnamedEvent)
      = Fulfilled t out /\
      mdRequestId (metadata out) = "req-0"%string).
Proof.
  split.
  - eexists _, _. split; [reflexivity|].
    destruct (result_carries_strategy_and_request_id Examples.hedgeConfig
                Examples.everyoneAnswers Examples.emptyStore "req-0" 1000
                Examples.plainEvent _ _ eq_refl)
      as (rid & Hrid & _ & _ & Hs & Hid & _).
    split; [exact Hs|]. rewrite Hid.
    apply (Hrid "req-1"%string); [reflexivity|discriminate].
  - eexists _, _. split; [reflexivity|].
    destruct (result_carries_strategy_and_request_id Examples.hedgeConfig
                Examples.everyoneAnswers Examples.emptyStore "req-0" 1000
                Examples.unnamedEvent _ _ eq_refl)
      as (rid & _ & Hrid & _ & _ & Hid & _).
    rewrite Hid. apply Hrid. reflexivity.
Defined.

(** X18. A metrics write that fails never changes the outcome of a
    request: two stores that answer the query alike give the same
    settlement and the same attempted writes, whatever their writes do;
    the failure only adds a warning to the log of a fulfilled request. *)
Theorem write_failure_is_swallowed
    (cfg : config) (world : string -> behaviour) (st : store)
    (putItem' : metricsItem -> bool)
    (freshId : string) (startTime : Z) (ev : event) :
  let st' := {| query := query st; queryMs := queryMs st;
                putItem := putItem' |} in
  let r := handler cfg world st freshId startTime ev in
  let r' := handler cfg world st' freshId startTime ev in
  settled r = settled r' /\
  writes r = writes r' /\
  ((forall it, putItem st it = true) ->
   (forall it, putItem' it = false) ->
   match settled r with
   | Fulfilled _ _ =>
       console r' = console r ++ [ConsoleWarn "Failed to record metrics:"]
   | _ => console r' = console r
   end).
Proof.
  simpl. unfold handler. simpl.
  destruct (determineExecutionStrategy cfg (query st) ev) as [s logs].
  destruct (startedAt (queryMs st) _) as [t out| |]; simpl.
  - split; [reflexivity|]. split; [reflexivity|].
    intros Hok Hfail. rewrite Hok, Hfail. rewrite app_nil_r. reflexivity.
  - repeat split; reflexivity.
  - repeat split; reflexivity.
Qed.

Lemma write_failure_is_swallowed_witness :
  (forall it, putItem Examples.emptyStore it = true) /\
  settled (handler Examples.hedgeConfig Examples.everyoneAnswers
             Examples.emptyStore "req-0" 1000 Examples.plainEvent)
  = settled (handler Examples.hedgeConfig Examples.everyoneAnswers
               {| query := query Examples.emptyStore;
                  queryMs := queryMs Examples.emptyStore;
                  putItem := fun _ => false |}
               "req-0" 1000 Examples.plainEvent).
Proof.
  split; [intros it; reflexivity|].
  exact (proj1 (write_failure_is_swallowed Examples.hedgeConfig
                  Examples.everyoneAnswers Examples.emptyStore
                  (fun _ => false) "req-0" 1000 Examples.plainEvent)).
Defined.

(** ** The percentile *)

Lemma sorted_rank_le (s : list Z) : forall (k : nat) (v : Z),
  StronglySorted Z.le s -> s !! k = Some v ->
  (k + 1 <= length (List.filter (fun x => (x <=? v)%Z) s))%nat.
Proof.
  induction s as [|x rest IH]; intros k v Hs Hk; [discriminate|].
  apply StronglySorted_inv in Hs as [Hrest Hx].
  destruct k as [|k]; simpl in Hk.
  - injection Hk as ->. simpl. rewrite Z.leb_refl. simpl. lia.
  - assert (x <= v) as Hle.
    { rewrite Forall_forall in Hx. apply Hx.
      eapply list_elem_of_lookup_2, Hk. }
    simpl. rewrite (proj2 (Z.leb_le x v) Hle). simpl.
    specialize (IH k v Hrest Hk). lia.
Qed.

Lemma sorted_rank_lt (s : list Z) : forall (k : nat) (v : Z),
  StronglySorted Z.le s -> s !! k = Some v ->
  (length (List.filter (fun x => (x <? v)%Z) s) <= k)%nat.
Proof.
  induction s as [|x rest IH]; intros k v Hs Hk; [discriminate|].
  apply StronglySorted_inv in Hs as [Hrest Hx].
  destruct k as [|k]; simpl in Hk.
  - injection Hk as ->. simpl. rewrite Z.ltb_irrefl.
    assert (List.filter (fun x => x <? v) rest = []) as ->; [|simpl; lia].
    clear IH Hrest. induction rest as [|y rest IH]; [reflexivity|].
    apply Forall_cons in Hx as [Hy Hx]. simpl.
    rewrite (proj2 (Z.ltb_ge y v) Hy). apply IH, Hx.
  - specialize (IH k v Hrest Hk). simpl.
    destruct (x <? v); simpl; lia.
Qed.

Lemma filter_length_perm {A : Type} (f : A -> bool) (l l' : list A) :
  Permutation l l' ->
  length (List.filter f l) = length (List.filter f l').
Proof.
  induction 1 as [|x l l' _ IH|x y l|l l' l'' _ IH1 _ IH2]; simpl.
  - reflexivity.
  - destruct (f x); simpl; lia.
  - destruct (f x), (f y); reflexivity.
  - lia.
Qed.

(** X19. Over a non-empty window the p95 latency is one of the observed
    latencies; at least 95% of the observations are not above it, and less
    than 95% of them are strictly below it. *)
Theorem p95_is_the_nearest_rank (metrics : list metric) :
  metrics <> [] ->
  let latencies := map latencyOf metrics in
  let n := Z.of_nat (length metrics) in
  exists v,
    calculatePercentileLatency metrics 95 = Some v /\
    In v latencies /\
    95 * n
    <= 100 * Z.of_nat (length (List.filter (fun x => x <=? v) latencies)) /\
    100 * Z.of_nat (length (List.filter (fun x => x <? v) latencies))
    < 95 * n.
Proof.
  intros Hne latencies n.
  set (sorted := sortAsc latencies).
  set (k := Z.to_nat (Z.max 0 (percentileIndex 95 (length metrics)))).
  assert (calculatePercentileLatency metrics 95 = sorted !! k) as Hp.
  { unfold calculatePercentileLatency. destruct metrics; [congruence|].
    fold latencies. fold sorted. unfold k, sorted.
    rewrite HedgeProofs.sortAsc_length. unfold latencies.
    rewrite length_map. reflexivity. }
  assert (0 < n) as Hn by (destruct metrics; [congruence|simpl in n; lia]).
  assert (Z.of_nat k = (95 * n + 99) / 100 - 1) as Hk.
  { unfold k. rewrite HedgeProofs.percentileIndex_ceiling. fold n.
    rewrite Z2Nat.id by lia.
    assert (1 <= (95 * n + 99) / 100) by (Z.div_mod_to_equations; lia).
    lia. }
  assert (length sorted = length metrics) as Hlen.
  { unfold sorted. rewrite HedgeProofs.sortAsc_length. unfold latencies.
    apply length_map. }
  destruct (sorted !! k) as [v|] eqn:Hv.
  - exists v. split; [exact Hp|].
    pose proof (HedgeProofs.sortAsc_perm latencies) as Hperm.
    fold sorted in Hperm.
    split.
    { eapply Permutation_in; [exact Hperm|].
      apply list_elem_of_In. eapply list_elem_of_lookup_2, Hv. }
    pose proof (sorted_rank_le sorted k v
                  (HedgeProofs.sortAsc_sorted latencies) Hv) as Hle.
    pose proof (sorted_rank_lt sorted k v
                  (HedgeProofs.sortAsc_sorted latencies) Hv) as Hlt.
    rewrite (filter_length_perm _ _ _ Hperm) in Hle.
    rewrite (filter_length_perm _ _ _ Hperm) in Hlt.
    split.
    + assert (95 * n <= 100 * (Z.of_nat k + 1))
        by (rewrite Hk; Z.div_mod_to_equations; lia).
      lia.
    + assert (100 * Z.of_nat k < 95 * n)
        by (rewrite Hk; Z.div_mod_to_equations; lia).
      lia.
  - exfalso. apply lookup_ge_None in Hv.
    assert ((95 * n + 99) / 100 <= n) by (Z.div_mod_to_equations; lia).
    subst n. lia.
Qed.

Lemma p95_is_the_nearest_rank_witness :
  Examples.window <> [] /\
  exists v,
    calculatePercentileLatency Examples.window 95 = Some v /\
    In v (map latencyOf Examples.window).
Proof.
  assert (Examples.window <> []) as Hne by discriminate.
  split; [exact Hne|].
  destruct (p95_is_the_nearest_rank Examples.window Hne)
    as (v & Hv & Hin & _).
  exists v. split; [exact Hv|exact Hin].
Defined.

(** ** The order of the observations *)

Lemma fold_left_sum (l : list metric) : forall acc,
  fold_left (fun a m => a + latencyOf m) l acc
  = acc + fold_right (fun m a => latencyOf m + a) 0 l.
Proof.
  induction l as [|m rest IH]; intros acc; simpl; [lia|].
  rewrite IH. lia.
Qed.

Lemma sumLatency_perm (l l' : list metric) :
  Permutation l l' -> sumLatency l = sumLatency l'.
Proof.
  unfold sumLatency. rewrite !fold_left_sum.
  induction 1 as [|x l l' _ IH|x y l|l l' l'' _ IH1 _ IH2]; simpl; lia.
Qed.

Lemma sortAsc_perm_eq (l l' : list Z) :
  Permutation l l' -> sortAsc l = sortAsc l'.
Proof.
  intros Hperm.
  apply (StronglySorted_unique Z.le); try apply HedgeProofs.sortAsc_sorted.
  rewrite !HedgeProofs.sortAsc_perm. exact Hperm.
Qed.

(** X20. The decision does not depend on the order in which the store
    returns the observations of the window. *)
Theorem decision_independent_of_order
    (cfg : config) (metrics metrics' : list metric) (ev : event) :
  Permutation metrics metrics' ->
  calculateAverageLatency metrics = calculateAverageLatency metrics' /\
  calculatePercentileLatency metrics 95
  = calculatePercentileLatency metrics' 95 /\
  calculateErrorRate metrics = calculateErrorRate metrics' /\
  decide_strategy cfg metrics ev = decide_strategy cfg metrics' ev.
Proof.
  intros Hperm.
  assert (length metrics = length metrics') as Hlen
    by apply Permutation_length, Hperm.
  assert (calculateAverageLatency metrics
          = calculateAverageLatency metrics') as Havg.
  { unfold calculateAverageLatency.
    rewrite (sumLatency_perm _ _ Hperm), Hlen.
    destruct metrics, metrics'; try discriminate; reflexivity. }
  assert (calculatePercentileLatency metrics 95
          = calculatePercentileLatency metrics' 95) as Hp.
  { unfold calculatePercentileLatency.
    rewrite (sortAsc_perm_eq (map latencyOf metrics) (map latencyOf metrics'))
      by (apply Permutation_map, Hperm).
    destruct metrics, metrics'; try discriminate; reflexivity. }
  assert (calculateErrorRate metrics = calculateErrorRate metrics') as Herr.
  { unfold calculateErrorRate.
    rewrite (filter_length_perm isFailure _ _ Hperm), Hlen.
    destruct metrics, metrics'; try discriminate; reflexivity. }
  repeat split; try assumption.
  unfold decide_strategy. rewrite Havg, Hp, Herr. reflexivity.
Qed.

Lemma decision_independent_of_order_witness :
  Permutation Examples.window (rev Examples.window) /\
  decide_strategy Examples.hedgeConfig Examples.window Examples.plainEvent
  = decide_strategy Examples.hedgeConfig (rev Examples.window)
      Examples.plainEvent.
Proof.
  assert (Permutation Examples.window (rev Examples.window)) as Hperm
    by apply Permutation_rev.
  split; [exact Hperm|].
  exact (proj2 (proj2 (proj2
    (decision_independent_of_order Examples.hedgeConfig _ _
       Examples.plainEvent Hperm)))).
Defined.

(** ** Healthy and slow windows *)

Lemma p95_member (metrics : list metric) :
  metrics <> [] ->
  exists v,
    calculatePercentileLatency metrics 95 = Some v /\
    In v (map latencyOf metrics).
Proof.
  intros Hne. unfold calculatePercentileLatency.
  destruct metrics as [|m0 rest] eqn:Hm; [congruence|].
  rewrite <- Hm in *. clear Hm.
  set (sorted := sortAsc (map latencyOf metrics)).
  destruct (sorted !! Z.to_nat (Z.max 0 (percentileIndex 95 (length sorted))))
    as [v|] eqn:Hv.
  - exists v. split; [reflexivity|].
    eapply Permutation_in; [apply HedgeProofs.sortAsc_perm|].
    apply list_elem_of_In. eapply list_elem_of_lookup_2, Hv.
  - exfalso. apply lookup_ge_None in Hv.
    assert (0 < length sorted)%nat as Hpos.
    { unfold sorted. rewrite HedgeProofs.sortAsc_length, length_map.
      destruct metrics; [congruence|simpl; lia]. }
    pose proof (HedgeProofs.percentileIndex_in_range 95 (length sorted)
                  ltac:(lia) Hpos).
    lia.
Qed.

Lemma sumLatency_bound (metrics : list metric) (T : Z) :
  Forall (fun m => latencyOf m <= T) metrics ->
  sumLatency metrics <= T * Z.of_nat (length metrics).
Proof.
  intros Hall. unfold sumLatency. rewrite fold_left_sum.
  induction Hall as [|m rest Hm Hrest IH]; simpl length; simpl fold_right;
    lia.
Qed.

(** X21. A window that holds only successes that took no longer than the
    threshold (in particular an empty window) never leads to a hedge:
    with a non-negative threshold the decision is SPECULATIVE for a
    high-value request when speculation is enabled, and PRIMARY_ONLY
    otherwise. *)
Theorem healthy_window_never_hedges
    (cfg : config) (metrics : list metric) (ev : event) :
  0 <= hedgeThresholdMs cfg ->
  Forall (fun m => isFailure m = false /\ latencyOf m <= hedgeThresholdMs cfg)
    metrics ->
  type (decide_strategy cfg metrics ev)
  = if enableSpeculative cfg && isHighValueRequest ev
    then SPECULATIVE else PRIMARY_ONLY.
Proof.
  intros HT Hall. unfold decide_strategy.
  assert (JS.Qgtb (calculateErrorRate metrics) (5 # 100) = false) as ->.
  { apply JSFacts.Qgtb_false. unfold calculateErrorRate.
    destruct metrics as [|m0 rest] eqn:Hm; [discriminate|].
    rewrite <- Hm in *.
    assert (List.filter isFailure metrics = []) as ->.
    { clear Hm. induction Hall as [|m l [Hf _] _ IH]; [reflexivity|].
      simpl. rewrite Hf. exact IH. }
    rewrite Hm. discriminate. }
  assert (exceeds (calculatePercentileLatency metrics 95)
            (hedgeThresholdMs cfg * 2) = false) as ->.
  { destruct metrics as [|m0 rest] eqn:Hm.
    - simpl. apply Z.ltb_ge. lia.
    - rewrite <- Hm in *.
      destruct (p95_member metrics) as (v & -> & Hv);
        [rewrite Hm; discriminate|].
      simpl. apply Z.ltb_ge.
      apply in_map_iff in Hv as (m & <- & Hin).
      rewrite Forall_forall in Hall.
      destruct (Hall m) as [_ Hle]; [apply list_elem_of_In, Hin|]. lia. }
  assert (JS.Qgtb (calculateAverageLatency metrics)
            (inject_Z (hedgeThresholdMs cfg)) = false) as ->.
  { destruct (JS.Qgtb _ _) eqn:E; [|reflexivity].
    apply JSFacts.Qgtb_true in E.
    destruct metrics as [|m0 rest] eqn:Hm.
    - exfalso. unfold calculateAverageLatency, Qlt in E. simpl in E. lia.
    - rewrite <- Hm in *.
      apply HedgeProofs.averageLatency_high_iff in E;
        [|rewrite Hm; discriminate].
      pose proof (sumLatency_bound metrics (hedgeThresholdMs cfg)) as Hb.
      exfalso. apply (Z.lt_irrefl (sumLatency metrics)).
      eapply Z.le_lt_trans; [|exact E]. apply Hb.
      eapply Forall_impl; [exact Hall|]. intros m [_ H]. exact H. }
  destruct (enableSpeculative cfg && isHighValueRequest ev); reflexivity.
Qed.

Lemma healthy_window_never_hedges_witness :
  0 <= hedgeThresholdMs Examples.hedgeConfig /\
  Forall (fun m => isFailure m = false /\
                   latencyOf m <= hedgeThresholdMs Examples.hedgeConfig)
    [Examples.observation 40 true; Examples.observation 100 true] /\
  type (decide_strategy Examples.hedgeConfig
          [Examples.observation 40 true; Examples.observation 100 true]
          Examples.plainEvent) = PRIMARY_ONLY.
Proof.
  assert (0 <= hedgeThresholdMs Examples.hedgeConfig) as HT by discriminate.
  assert (Forall (fun m => isFailure m = false /\
                           latencyOf m <= hedgeThresholdMs Examples.hedgeConfig)
            [Examples.observation 40 true; Examples.observation 100 true])
    as Hall.
  { repeat constructor; discriminate. }
  split; [exact HT|]. split; [exact Hall|].
  exact (healthy_window_never_hedges Examples.hedgeConfig _
           Examples.plainEvent HT Hall).
Defined.

(** X22. A non-empty window in which every observation took longer than
    twice the threshold always leads to the immediate hedge. *)
Theorem slow_window_hedges_immediately
    (cfg : config) (metrics : list metric) (ev : event) :
  metrics <> [] ->
  Forall (fun m => hedgeThresholdMs cfg * 2 < latencyOf m) metrics ->
  type (decide_strategy cfg metrics ev) = IMMEDIATE_HEDGE.
Proof.
  intros Hne Hall. unfold decide_strategy.
  destruct (JS.Qgtb (calculateErrorRate metrics) (5 # 100)); [reflexivity|].
  destruct (p95_member metrics Hne) as (v & -> & Hv).
  apply in_map_iff in Hv as (m & <- & Hin).
  rewrite Forall_forall in Hall.
  assert (hedgeThresholdMs cfg * 2 < latencyOf m) as Hlt
    by (apply Hall, list_elem_of_In, Hin).
  simpl. rewrite (proj2 (Z.ltb_lt _ _) Hlt). reflexivity.
Qed.

Lemma slow_window_hedges_immediately_witness :
  [Examples.observation 250 true; Examples.observation 300 true] <> [] /\
  Forall (fun m => hedgeThresholdMs Examples.hedgeConfig * 2 < latencyOf m)
    [Examples.observation 250 true; Examples.observation 300 true] /\
  type (decide_strategy Examples.hedgeConfig
          [Examples.observation 250 true; Examples.observation 300 true]
          Examples.plainEvent) = IMMEDIATE_HEDGE.
Proof.
  assert ([Examples.observation 250 true; Examples.observation 300 true]
          <> []) as Hne by discriminate.
  assert (Forall (fun m => hedgeThresholdMs Examples.hedgeConfig * 2
                           < latencyOf m)
            [Examples.observation 250 true; Examples.observation 300 true])
    as Hall by (repeat constructor).
  split; [exact Hne|]. split; [exact Hall|].
  exact (slow_window_hedges_immediately Examples.hedgeConfig _
           Examples.plainEvent Hne Hall).
Defined.

End HedgeProperties.

(* ===================================================================== *)
(** * Properties of the entanglement processor *)
(* ===================================================================== *)

Module EntanglementProperties.
Import Entanglement.

Section Chunks.

Context {A : Type}.

Lemma chunkLoop_chunks (chunkSize : nat) :
  (1 <= chunkSize)%nat ->
  forall fuel (rest : list A),
    (length rest <= fuel)%nat ->
    exists chunks,
      chunkLoop fuel rest chunkSize = Some chunks /\
      concat chunks = rest /\
      Forall (fun c => (1 <= length c <= chunkSize)%nat) chunks /\
      (length rest <= length chunks * chunkSize)%nat /\
      (length chunks * chunkSize < length rest + chunkSize)%nat /\
      (forall i c,
          chunks !! i = Some c -> (S i < length chunks)%nat ->
          length c = chunkSize).
Proof.
  intros Hsize. induction fuel as [|fuel IH]; intros rest Hfuel.
  - destruct rest; [|simpl in Hfuel; lia].
    exists []. simpl. repeat split; try constructor; try lia;
      intros i c Hc; discriminate.
  - destruct rest as [|x rest'].
    + exists []. simpl. repeat split; try constructor; try lia;
        intros i c Hc; discriminate.
    + assert (1 <= length (x :: rest'))%nat as Hlen by (simpl; lia).
      remember (x :: rest') as rest eqn:Hrest.
      assert (length (drop chunkSize rest) <= fuel)%nat as Hdrop.
      { rewrite length_drop. lia. }
      destruct (IH (drop chunkSize rest) Hdrop)
        as (chunks & Hloop & Hcat & Hall & Hlow & Hhigh & Hfull).
      exists (take chunkSize rest :: chunks).
      rewrite length_drop in Hlow, Hhigh.
      split.
      { rewrite Hrest. simpl. rewrite <- Hrest, Hloop. reflexivity. }
      split; [simpl; rewrite Hcat; apply take_drop|].
      split.
      { constructor; [|exact Hall]. rewrite length_take. lia. }
      assert ((length rest <= chunkSize)%nat -> chunks = []) as Hlast.
      { intros Hle. destruct chunks as [|c0 chunks']; [reflexivity|].
        simpl in Hhigh. lia. }
      split; [simpl; lia|].
      split.
      { destruct (Nat.le_gt_cases (length rest) chunkSize) as [Hle|Hgt].
        - rewrite (Hlast Hle). simpl. lia.
        - simpl. lia. }
      intros i c Hc Hi. destruct i as [|i]; simpl in Hc.
      * injection Hc as <-. rewrite length_take.
        destruct (Nat.le_gt_cases (length rest) chunkSize) as [Hle|Hgt];
          [|lia].
        rewrite (Hlast Hle) in Hi. simpl in Hi. lia.
      * apply (Hfull i c Hc). simpl in Hi. lia.
Qed.

(** Iterations beyond the end of the loop change nothing. *)
Lemma chunkLoop_more_fuel (chunkSize : nat) :
  forall fuel (rest : list A) chunks,
    chunkLoop fuel rest chunkSize = Some chunks ->
    forall fuel', (fuel <= fuel')%nat ->
                  chunkLoop fuel' rest chunkSize = Some chunks.
Proof.
  induction fuel as [|fuel IH]; intros rest chunks Hloop fuel' Hle.
  - destruct rest; [|discriminate]. destruct fuel'; exact Hloop.
  - destruct rest as [|x rest']; [destruct fuel'; exact Hloop|].
    destruct fuel' as [|fuel']; [lia|].
    simpl in *.
    destruct (chunkLoop fuel (drop chunkSize (x :: rest')) chunkSize)
      as [chunks0|] eqn:E; [|discriminate].
    rewrite (IH _ _ E fuel') by lia. exact Hloop.
Qed.

(** X23. For a chunk size of at least one, chunkArray returns: its chunks
    concatenate to the array, every chunk is non-empty and holds at most
    chunkSize elements, every chunk but the last holds exactly chunkSize,
    and their number is the array's length divided by chunkSize, rounded
    up; more loop iterations do not change the result. *)
Theorem chunkArray_partitions (array : list A) (chunkSize : nat) :
  (1 <= chunkSize)%nat ->
  exists chunks,
    chunkArray array chunkSize = Some chunks /\
    (forall fuel, (length array <= fuel)%nat ->
                  chunkLoop fuel array chunkSize = Some chunks) /\
    concat chunks = array /\
    Forall (fun c => (1 <= length c <= chunkSize)%nat) chunks /\
    (forall i c,
        chunks !! i = Some c -> (S i < length chunks)%nat ->
        length c = chunkSize) /\
    length chunks = ((length array + chunkSize - 1) / chunkSize)%nat.
Proof.
  intros Hsize.
  destruct (chunkLoop_chunks chunkSize Hsize (length array) array (le_n _))
    as (chunks & Hloop & Hcat & Hall & Hlow & Hhigh & Hfull).
  exists chunks. split; [exact Hloop|]. split.
  { intros fuel Hfuel. eapply chunkLoop_more_fuel; eauto. }
  split; [exact Hcat|]. split; [exact Hall|]. split; [exact Hfull|].
  apply Nat.div_unique with
    (r := (length array + chunkSize - 1 - length chunks * chunkSize)%nat);
    lia.
Qed.

(** X24. With a chunk size of zero chunkArray returns the empty list for
    an empty array, and for any other array its loop never ends, however
    many iterations it is given. *)
Theorem chunkArray_zero_size (array : list A) :
  (array = [] -> chunkArray array 0 = Some []) /\
  (array <> [] -> forall fuel, chunkLoop fuel array 0 = None).
Proof.
  split.
  - intros ->. reflexivity.
  - intros Hne fuel. induction fuel as [|fuel IH].
    + destruct array; [congruence|reflexivity].
    + destruct array as [|x rest]; [congruence|].
      change (chunkLoop (S fuel) (x :: rest) 0)
        with (match chunkLoop fuel (x :: rest) 0 with
              | Some chunks => Some (take 0 (x :: rest) :: chunks)
              | None => None
              end).
      rewrite IH. reflexivity.
Qed.

Lemma sendAll_all_sent (send : list A -> bool) (chunks : list (list A)) :
  (forall c, In c chunks -> send c = true) ->
  sendAll send chunks = (chunks, true).
Proof.
  induction chunks as [|c rest IH]; intros Hok; [reflexivity|].
  simpl. rewrite Hok by (left; reflexivity).
  rewrite IH; [reflexivity|]. intros d Hd. apply Hok. right. exact Hd.
Qed.

Lemma sendAll_prefix (send : list A -> bool) (chunks : list (list A)) :
  exists rest, chunks = fst (sendAll send chunks) ++ rest /\
               (snd (sendAll send chunks) = true -> rest = []).
Proof.
  induction chunks as [|c chunks IH].
  - exists []. split; reflexivity.
  - simpl. destruct (send c).
    + destruct (sendAll send chunks) as [sent ok].
      destruct IH as (rest & Heq & Hok). simpl in *.
      exists rest. split; [rewrite Heq at 1; reflexivity|exact Hok].
    + exists chunks. split; [reflexivity|discriminate].
Qed.

(** X25. publishEvents always comes to an end; the commands it sends are,
    in order, leading chunks of the events, each of at most ten entries,
    and when no command fails they carry exactly the events, in order, in
    as many commands as a tenth of their number, rounded up. *)
Theorem publishEvents_sends_all_in_order
    (send : list A -> bool) (events : list A) :
  exists sent ok,
    publishEvents send events = Some (sent, ok) /\
    Forall (fun c => (1 <= length c <= 10)%nat) sent /\
    (exists unsent, events = concat sent ++ unsent) /\
    ((forall c, send c = true) ->
     ok = true /\ concat sent = events /\
     length sent = ((length events + 9) / 10)%nat).
Proof.
  destruct (chunkLoop_chunks 10 ltac:(lia) (length events) events (le_n _))
    as (chunks & Hloop & Hcat & Hall & Hlow & Hhigh & _).
  unfold publishEvents, chunkArray. rewrite Hloop.
  destruct (sendAll send chunks) as [sent ok] eqn:E.
  exists sent, ok. split; [reflexivity|].
  destruct (sendAll_prefix send chunks) as (rest & Heq & _).
  rewrite E in Heq. simpl in Heq.
  split; [|split].
  - rewrite Heq in Hall. apply Forall_app in Hall as [Hsent _]. exact Hsent.
  - exists (concat rest). rewrite <- Hcat, Heq, concat_app. reflexivity.
  - intros Hok. rewrite sendAll_all_sent in E by (intros c _; apply Hok).
    injection E as <- <-. split; [reflexivity|]. split; [exact Hcat|].
    apply Nat.div_unique with
      (r := (length events + 9 - length chunks * 10)%nat); lia.
Qed.

End Chunks.

Lemma chunkArray_partitions_witness :
  (1 <= 2)%nat /\
  exists chunks,
    chunkArray [1; 2; 3; 4; 5] 2 = Some chunks /\
    concat chunks = [1; 2; 3; 4; 5] /\
    length chunks = 3%nat.
Proof.
  assert (1 <= 2)%nat as Hsize by lia.
  split; [exact Hsize|].
  destruct (chunkArray_partitions [1; 2; 3; 4; 5] 2%nat Hsize)
    as (chunks & Hr & _ & Hcat & _ & _ & Hlen).
  exists chunks. split; [exact Hr|]. split; [exact Hcat|exact Hlen].
Defined.

Lemma chunkArray_zero_size_witness :
  [1; 2] <> [] /\ chunkLoop 100 [1; 2] 0 = None.
Proof.
  assert ([1; 2] <> []) as Hne by discriminate.
  split; [exact Hne|].
  exact (proj2 (chunkArray_zero_size [1; 2]) Hne 100%nat).
Defined.

Lemma publishEvents_sends_all_in_order_witness :
  (forall c : list Z, (fun _ => true) c = true) /\
  exists sent ok,
    publishEvents (fun _ => true) [1; 2; 3] = Some (sent, ok) /\
    ok = true.
Proof.
  assert (forall c : list Z, (fun _ => true) c = true) as Hok
    by (intros c; reflexivity).
  split; [exact Hok|].
  destruct (publishEvents_sends_all_in_order (fun _ => true) [1; 2; 3])
    as (sent & ok & Hr & _ & _ & Hall).
  exists sent, ok. split; [exact Hr|]. exact (proj1 (Hall Hok)).
Defined.

End EntanglementProperties.

(* ===================================================================== *)
(** * Properties of the collaborative-filtering executor *)
(* ===================================================================== *)

Module RecommendationsProperties.
Import Recommendations.









End RecommendationsProperties.

